(** * SolKit: template engine, environment files and source patchers

    A shallow embedding of the text-transformation core of the SolKit CLI
    (src/core/template-engine.ts, src/utils/config.ts and the framework
    modules under src/frameworks/), together with the properties stated
    about it.

    JavaScript strings are modelled as lists of code units; a code unit is
    an [ascii], so the model covers code units below 256.  Regular
    expressions are run by a backtracking matcher written in the
    continuation style of the ECMAScript specification. *)

From Stdlib Require Import Ascii String.
From Stdlib Require Import List Arith ZArith Lia Bool.
From Stdlib Require Import Numbers.DecimalString Numbers.DecimalNat.
Import ListNotations.

Set Implicit Arguments.
Set Warnings "-register-all".

(** ** JavaScript strings *)

Module JsString.

Definition str := list ascii.

Definition lit (s : string) : str := list_ascii_of_string s.

Definition code (c : ascii) : nat := nat_of_ascii c.

(** WhiteSpace and LineTerminator code units (what [\s] and [trim] see). *)
Definition is_ws (c : ascii) : bool :=
  let n := code c in
  (n =? 9) || (n =? 10) || (n =? 11) || (n =? 12) || (n =? 13)
  || (n =? 32) || (n =? 160).

Definition is_line_term (c : ascii) : bool :=
  let n := code c in (n =? 10) || (n =? 13).

Fixpoint str_eqb (a b : str) : bool :=
  match a, b with
  | [], [] => true
  | x :: a', y :: b' => Ascii.eqb x y && str_eqb a' b'
  | _, _ => false
  end.

(** [s.startsWith(p)] *)
Fixpoint startsWith (p s : str) : bool :=
  match p, s with
  | [], _ => true
  | x :: p', y :: s' => Ascii.eqb x y && startsWith p' s'
  | _ :: _, [] => false
  end.

(** [s.endsWith(p)] *)
Definition endsWith (p s : str) : bool := startsWith (rev p) (rev s).

(** Index of the first occurrence of [p] in [s], if any. *)
Fixpoint find (p s : str) : option nat :=
  if startsWith p s then Some 0
  else match s with
       | [] => None
       | _ :: t => option_map S (find p t)
       end.

(** Index of the last occurrence of [p] in [s], if any. *)
Fixpoint find_last (p s : str) : option nat :=
  match s with
  | [] => if startsWith p [] then Some 0 else None
  | _ :: t =>
      match find_last p t with
      | Some i => Some (S i)
      | None => if startsWith p s then Some 0 else None
      end
  end.

(** [s.includes(p)] *)
Definition includes (p s : str) : bool :=
  match find p s with Some _ => true | None => false end.

(** [s.indexOf(p)] and [s.lastIndexOf(p)], with -1 for no occurrence. *)
Definition indexOf (p s : str) : Z :=
  match find p s with Some i => Z.of_nat i | None => (-1)%Z end.

Definition lastIndexOf (p s : str) : Z :=
  match find_last p s with Some i => Z.of_nat i | None => (-1)%Z end.

(** [s.indexOf(p, from)] *)
Definition indexOf_from (p s : str) (from : Z) : Z :=
  let k := Z.to_nat (Z.min (Z.max from 0) (Z.of_nat (length s))) in
  match find p (skipn k s) with
  | Some i => Z.of_nat (k + i)
  | None => (-1)%Z
  end.

Definition clamp (s : str) (i : Z) : nat :=
  Z.to_nat (Z.min (Z.max i 0) (Z.of_nat (length s))).

(** [s.substring(a, b)]: both ends clamped to the string, swapped when
    [a > b]. *)
Definition substring (s : str) (a b : Z) : str :=
  let x := clamp s a in
  let y := clamp s b in
  let lo := Nat.min x y in
  let hi := Nat.max x y in
  firstn (hi - lo) (skipn lo s).

(** [s.substring(a)] *)
Definition substring_from (s : str) (a : Z) : str := skipn (clamp s a) s.

Fixpoint trimStart (s : str) : str :=
  match s with
  | c :: t => if is_ws c then trimStart t else s
  | [] => []
  end.

Definition trimEnd (s : str) : str := rev (trimStart (rev s)).

(** [s.trim()] *)
Definition trim (s : str) : str := trimEnd (trimStart s).

(** [s.split(c)] for a one-character separator: never the empty list. *)
Fixpoint split_on (c : ascii) (s : str) : list str :=
  match s with
  | [] => [[]]
  | x :: t =>
      if Ascii.eqb x c then [] :: split_on c t
      else match split_on c t with
           | w :: ws => (x :: w) :: ws
           | [] => [[x]]
           end
  end.

(** [parts.join(sep)] *)
Fixpoint join (sep : str) (parts : list str) : str :=
  match parts with
  | [] => []
  | [p] => p
  | p :: ps => p ++ sep ++ join sep ps
  end.

Definition is_digit (c : ascii) : bool :=
  (48 <=? code c) && (code c <=? 57).

(** ** Replacement templates

    [GetSubstitution] of ECMAScript: in a replacement string, [$$] is a
    dollar sign, [$&] the matched text, [$`] and [$'] the text before and
    after the match, and [$n] or [$nn] the n-th capture when the pattern
    has one (a reference to a capture that does not exist stays as
    written). *)

Record subst_env := {
  se_matched : str;
  se_before : str;
  se_after : str;
  se_captures : list str
}.

Definition digit_val (c : ascii) : nat := code c - 48.

Definition capture (caps : list str) (i : nat) : str := nth (i - 1) caps [].

Definition in_range (caps : list str) (i : nat) : bool :=
  (1 <=? i) && (i <=? length caps).

Fixpoint expand (env : subst_env) (t : str) : str :=
  match t with
  | [] => []
  | c :: t1 =>
      if Ascii.eqb c "$"%char then
        match t1 with
        | d :: t2 =>
            if Ascii.eqb d "$"%char then "$"%char :: expand env t2
            else if Ascii.eqb d "&"%char then se_matched env ++ expand env t2
            else if Ascii.eqb d "`"%char then se_before env ++ expand env t2
            else if Ascii.eqb d "'"%char then se_after env ++ expand env t2
            else if is_digit d then
              let caps := se_captures env in
              let one :=
                if in_range caps (digit_val d)
                then capture caps (digit_val d) ++ expand env t2
                else c :: expand env t1 in
              match t2 with
              | d2 :: t3 =>
                  if is_digit d2 then
                    let i2 := 10 * digit_val d + digit_val d2 in
                    if in_range caps i2 then capture caps i2 ++ expand env t3
                    else if length caps <? i2 then one
                    else c :: expand env t1
                  else one
              | [] => one
              end
            else c :: expand env t1
        | [] => [c]
        end
      else c :: expand env t1
  end.

(** [s.replace(pat, template)] with a string pattern: the first occurrence
    only, the template expanded with no captures. *)
Definition replace_str (s pat template : str) : str :=
  match find pat s with
  | None => s
  | Some i =>
      let before := firstn i s in
      let after := skipn (i + length pat) s in
      before
      ++ expand {| se_matched := pat; se_before := before;
                   se_after := after; se_captures := [] |} template
      ++ after
  end.

End JsString.

(** ** Outcomes

    A call returns a value or throws. *)

Module JsError.
Import JsString.

(** What is thrown: an [Error] with its message, the [TypeError] of a
    member access that JavaScript refuses, or the error of a library call
    that failed. *)
Inductive thrown : Type :=
| JsError (msg : str)
| JsTypeError
| JsLibraryError.

Inductive result (A : Type) : Type :=
| Ok (a : A)
| Throw (e : thrown).

Arguments Ok {A} a.
Arguments Throw {A} e.

Definition bind {A B : Type} (x : result A) (f : A -> result B) : result B :=
  match x with
  | Ok a => f a
  | Throw e => Throw e
  end.

End JsError.

(** ** Regular expressions

    The patterns of the program use literals, character classes, sequence,
    alternation, greedy and lazy repetition, capture groups and the line
    anchors.  [m] is the matcher of the ECMAScript specification: it takes
    the state reached so far and a continuation for the rest of the
    pattern, and backtracks through the alternatives in priority order.
    An iteration of a repetition that consumes nothing is rejected, as the
    specification's RepeatMatcher does. *)

Module Regex.
Import JsString JsError.

Inductive regex : Type :=
| Eps
| Chr (c : ascii)
| Cls (p : ascii -> bool)
| Seq (r1 r2 : regex)
| Alt (r1 r2 : regex)
| Star (greedy : bool) (r : regex)
| Grp (i : nat) (r : regex)
| Bol (multiline : bool)
| Eol (multiline : bool).

(** Matcher state: the code unit before the current position, the input
    that remains, and the captures closed so far (latest first). *)
Record mstate := {
  prev : option ascii;
  rest : str;
  caps : list (nat * str)
}.

Definition advance (s : mstate) (c : ascii) (t : str) : mstate :=
  {| prev := Some c; rest := t; caps := caps s |}.

(** The text consumed between state [s] and a later state [s']. *)
Definition consumed (s s' : mstate) : str :=
  firstn (length (rest s) - length (rest s')) (rest s).

Definition close_group (i : nat) (s s' : mstate) : mstate :=
  {| prev := prev s'; rest := rest s';
     caps := (i, consumed s s') :: caps s' |}.

Definition at_bol (multiline : bool) (s : mstate) : bool :=
  match prev s with
  | None => true
  | Some c => multiline && is_line_term c
  end.

Definition at_eol (multiline : bool) (s : mstate) : bool :=
  match rest s with
  | [] => true
  | c :: _ => multiline && is_line_term c
  end.

Definition or_else {A} (x y : option A) : option A :=
  match x with Some _ => x | None => y end.

(** The RepeatMatcher: [step] runs the body of the repetition once;
    [fuel] bounds the number of iterations, each of which consumes at
    least one code unit. *)
Definition star_loop
  (step : (mstate -> option mstate) -> mstate -> option mstate)
  (greedy : bool) (k : mstate -> option mstate)
  : nat -> mstate -> option mstate :=
  fix loop (fuel : nat) (s0 : mstate) {struct fuel} : option mstate :=
    match fuel with
    | 0 => k s0
    | S fuel' =>
        let again :=
          step (fun s1 =>
                  if length (rest s1) <? length (rest s0)
                  then loop fuel' s1 else None) s0 in
        if greedy then or_else again (k s0) else or_else (k s0) again
    end.

Fixpoint m (r : regex) (k : mstate -> option mstate) (s : mstate)
  : option mstate :=
  match r with
  | Eps => k s
  | Chr c =>
      match rest s with
      | x :: t => if Ascii.eqb x c then k (advance s x t) else None
      | [] => None
      end
  | Cls p =>
      match rest s with
      | x :: t => if p x then k (advance s x t) else None
      | [] => None
      end
  | Seq r1 r2 => m r1 (m r2 k) s
  | Alt r1 r2 => or_else (m r1 k s) (m r2 k s)
  | Star greedy r1 => star_loop (m r1) greedy k (length (rest s)) s
  | Grp i r1 => m r1 (fun s1 => k (close_group i s s1)) s
  | Bol ml => if at_bol ml s then k s else None
  | Eol ml => if at_eol ml s then k s else None
  end.

(** The result of [exec]: where the match starts, how long it is, and the
    captures. *)
Record mresult := {
  index : nat;
  mlen : nat;
  groups : list (nat * str)
}.

(** Try the pattern at the current position, then at each later one. *)
Fixpoint exec_from (r : regex) (p : option ascii) (s : str) (i : nat)
  : option mresult :=
  match m r Some {| prev := p; rest := s; caps := [] |} with
  | Some s' =>
      Some {| index := i; mlen := length s - length (rest s');
              groups := caps s' |}
  | None =>
      match s with
      | [] => None
      | c :: t => exec_from r (Some c) t (S i)
      end
  end.

Definition char_before (s : str) (i : nat) : option ascii :=
  match i with
  | 0 => None
  | S j => nth_error s j
  end.

(** [exec] with [lastIndex = from]. *)
Definition exec_at (r : regex) (s : str) (from : nat) : option mresult :=
  if length s <? from then None
  else exec_from r (char_before s from) (skipn from s) from.

(** [s.match(r)] for a pattern without the [g] flag. *)
Definition exec (r : regex) (s : str) : option mresult := exec_at r s 0.

(** [r.test(s)] *)
Definition test (r : regex) (s : str) : bool :=
  match exec r s with Some _ => true | None => false end.

Definition matched (s : str) (res : mresult) : str :=
  firstn (mlen res) (skipn (index res) s).

Definition before_match (s : str) (res : mresult) : str :=
  firstn (index res) s.

Definition after_match (s : str) (res : mresult) : str :=
  skipn (mlen res) (skipn (index res) s).

Fixpoint lookup_group (i : nat) (g : list (nat * str)) : option str :=
  match g with
  | [] => None
  | (j, v) :: g' => if j =? i then Some v else lookup_group i g'
  end.

(** The text of capture [i]; every capture of the program's patterns takes
    part in every match, so the [undefined] of a capture that did not is
    not needed. *)
Definition group (i : nat) (res : mresult) : str :=
  match lookup_group i (groups res) with Some v => v | None => [] end.

(** All matches of a pattern with the [g] flag, left to right; after an
    empty match the search moves on by one code unit. *)
Fixpoint exec_all (fuel : nat) (r : regex) (s : str) (from : nat)
  : list mresult :=
  match fuel with
  | 0 => []
  | S fuel' =>
      match exec_at r s from with
      | None => []
      | Some res =>
          let next := if mlen res =? 0 then index res + 1
                      else index res + mlen res in
          res :: exec_all fuel' r s next
      end
  end.

Definition match_all (r : regex) (s : str) : list mresult :=
  exec_all (S (S (length s))) r s 0.

(** [s.match(r)] for a pattern with the [g] flag: the matched texts, or
    [null] when there is none. *)
Definition match_global (r : regex) (s : str) : option (list str) :=
  match match_all r s with
  | [] => None
  | ms => Some (map (matched s) ms)
  end.

(** [s.replace(r, f)] for a pattern without the [g] flag and a replacer
    function. *)
Definition replace_fn (r : regex) (f : mresult -> str) (s : str) : str :=
  match exec r s with
  | None => s
  | Some res => before_match s res ++ f res ++ after_match s res
  end.

Definition captures_upto (n : nat) (res : mresult) : list str :=
  map (fun i => group i res) (seq 1 n).

(** [s.replace(r, template)] for a pattern with [n] captures and without
    the [g] flag. *)
Definition replace_tpl (r : regex) (n : nat) (template : str) (s : str)
  : str :=
  replace_fn r
    (fun res =>
       expand {| se_matched := matched s res;
                 se_before := before_match s res;
                 se_after := after_match s res;
                 se_captures := captures_upto n res |} template) s.

(** Splice the replacements of successive matches into [s], from
    position [pos] on. *)
Fixpoint splice (s : str) (pos : nat) (ms : list (mresult * str)) : str :=
  match ms with
  | [] => skipn pos s
  | (res, repl) :: ms' =>
      firstn (index res - pos) (skipn pos s) ++ repl
      ++ splice s (index res + mlen res) ms'
  end.

(** [s.replace(r, f)] for a pattern with the [g] flag and a replacer
    function. *)
Definition replace_all_fn (r : regex) (f : mresult -> str) (s : str) : str :=
  splice s 0 (map (fun res => (res, f res)) (match_all r s)).

(** The replacements of successive matches, from calls of a replacer that
    may throw: the calls are made from left to right, and the first one
    that throws ends them. *)
Fixpoint replacements (f : mresult -> result str) (ms : list mresult)
  : result (list (mresult * str)) :=
  match ms with
  | [] => Ok []
  | res :: ms' =>
      bind (f res)
        (fun repl =>
           bind (replacements f ms') (fun rs => Ok ((res, repl) :: rs)))
  end.

(** [s.replace(r, f)] for a pattern with the [g] flag and a replacer
    function that may throw: all matches are found first, then the
    replacer is called for each. *)
Definition replace_all_try (r : regex) (f : mresult -> result str) (s : str)
  : result str :=
  bind (replacements f (match_all r s)) (fun rs => Ok (splice s 0 rs)).

(** *** Pattern notation *)

Fixpoint Lit (s : str) : regex :=
  match s with
  | [] => Eps
  | [c] => Chr c
  | c :: t => Seq (Chr c) (Lit t)
  end.

Definition L (s : string) : regex := Lit (lit s).

Fixpoint seqs (rs : list regex) : regex :=
  match rs with
  | [] => Eps
  | [r] => r
  | r :: rs' => Seq r (seqs rs')
  end.

Definition Plus (greedy : bool) (r : regex) : regex := Seq r (Star greedy r).
Definition Opt (r : regex) : regex := Alt r Eps.

(** [.] without and with the [s] flag, [\s], and negated one-character
    classes. *)
Definition dot : regex := Cls (fun c => negb (is_line_term c)).
Definition any : regex := Cls (fun _ => true).
Definition ws : regex := Cls is_ws.
Definition not_chr (c : ascii) : regex := Cls (fun x => negb (Ascii.eqb x c)).

Definition ws_star : regex := Star true ws.
Definition ws_plus : regex := Plus true ws.

End Regex.

(** ** Context values

    A template context is a tree of JavaScript data.  Property access
    [v[k]] finds the own members of a value, which are the fields of an
    object and the elements and the length of an array or a string, and
    then the members that the value inherits from the built-in prototypes
    ([constructor], [toString] and the like).  What is inherited belongs to
    the runtime and not to the program: the model takes it as a parameter,
    [runtime], and the properties below hold for every runtime. *)

Module JsValue.
Import JsString JsError.

(** [JNum z] is the number that the integer literal [z] denotes, and
    [JReal text] a number that is not an integer, known by the text that
    [String] gives for it.  [JBuiltin name] is an object that only the
    runtime supplies, a built-in function or a prototype; its members and
    its string form are the runtime's. *)
Inductive jsval : Type :=
| JUndefined
| JNull
| JBool (b : bool)
| JNum (z : Z)
| JReal (text : str)
| JStr (s : str)
| JObj (fields : list (str * jsval))
| JArr (items : list jsval)
| JBuiltin (name : str).

Definition is_undefined (v : jsval) : bool :=
  match v with JUndefined => true | _ => false end.

Definition is_nullish (v : jsval) : bool :=
  match v with JUndefined | JNull => true | _ => false end.

(** The value of the field [k], [undefined] when there is no such
    field. *)
Fixpoint lookup (k : str) (fields : list (str * jsval)) : jsval :=
  match fields with
  | [] => JUndefined
  | (k', v) :: fs => if str_eqb k k' then v else lookup k fs
  end.

(** The field [k], when there is one. *)
Fixpoint own_field (k : str) (fields : list (str * jsval)) : option jsval :=
  match fields with
  | [] => None
  | (k', v) :: fs => if str_eqb k k' then Some v else own_field k fs
  end.

Definition digits (z : Z) : str := lit (NilZero.string_of_int (Z.to_int z)).

(** The number value of an integer literal: the double nearest to it,
    the even one of two that are equally near.  The result is the
    significand, below [2^53], and the power of two it is multiplied
    with. *)
Definition to_double (a : Z) : Z * Z :=
  let bits := (Z.log2 a + 1)%Z in
  if (bits <=? 53)%Z then (a, 0%Z)
  else
    let e := (bits - 53)%Z in
    let q := Z.shiftr a e in
    let r := (a - Z.shiftl q e)%Z in
    let half := Z.shiftl 1 (e - 1) in
    let q' := if (half <? r)%Z || ((r =? half)%Z && Z.odd q)
              then (q + 1)%Z else q in
    if (q' =? 2 ^ 53)%Z then ((2 ^ 52)%Z, (e + 1)%Z) else (q', e).

(** [c] rounds to the double [q * 2^e], where [e >= 1]: it lies within
    half the distance to the neighbouring doubles, the bounds included
    when [q] is even. *)
Definition rounds_to (q e c : Z) : bool :=
  let v := Z.shiftl q e in
  let above := Z.shiftl 1 e in
  let below := if (q =? 2 ^ 52)%Z then Z.shiftl 1 (e - 1) else Z.shiftl 1 e in
  let d := (c - v)%Z in
  if (0 <=? d)%Z
  then (2 * d <? above)%Z || ((2 * d =? above)%Z && Z.even q)
  else (2 * - d <? below)%Z || ((2 * - d =? below)%Z && Z.even q).

(** The decimal number with the fewest significant digits that rounds to
    the double [q * 2^e], the nearest of them when there are two: tried
    with [p] trailing zeros, [p] counting down from [fuel]. *)
Fixpoint shortest (q e : Z) (fuel : nat) : Z * nat :=
  let v := Z.shiftl q e in
  match fuel with
  | 0 => (v, 0)
  | S fuel' =>
      let unit := (10 ^ Z.of_nat fuel)%Z in
      let lo := (v / unit * unit)%Z in
      let hi := (lo + unit)%Z in
      let lo_ok := (0 <? lo)%Z && rounds_to q e lo in
      let hi_ok := rounds_to q e hi in
      if lo_ok && hi_ok then
        if (v - lo <? hi - v)%Z then (lo, fuel)
        else if (hi - v <? v - lo)%Z then (hi, fuel)
        else if Z.even (lo / unit) then (lo, fuel) else (hi, fuel)
      else if lo_ok then (lo, fuel)
      else if hi_ok then (hi, fuel)
      else shortest q e fuel'
  end.

(** [String(n)] for the number value of the integer literal [z]: every
    digit for a safe integer; beyond, the shortest decimal that rounds to
    the same double, written out below [1e21] and in exponent form from
    there on. *)
Definition num_to_str (z : Z) : str :=
  let a := Z.abs z in
  let sign := if (z <? 0)%Z then lit "-" else [] in
  if (a <? 2 ^ 53)%Z then digits z
  else
    let '(q, e) := to_double a in
    if (1025 <=? Z.log2 q + 1 + e)%Z then sign ++ lit "Infinity"
    else
      let '(c, p) := shortest q e (Z.to_nat (Z.log2 a)) in
      let all := digits c in
      let n := length all in
      if n <=? 21 then sign ++ all
      else
        let s := firstn (n - p) all in
        sign ++ firstn 1 s
        ++ (match skipn 1 s with [] => [] | more => lit "." ++ more end)
        ++ lit "e+" ++ digits (Z.of_nat (n - 1)).

(** A canonical array index: decimal digits with no leading zero. *)
Fixpoint digits_val (acc : nat) (s : str) : option nat :=
  match s with
  | [] => Some acc
  | c :: t => if is_digit c then digits_val (10 * acc + digit_val c) t
              else None
  end.

Definition parse_index (s : str) : option nat :=
  match s with
  | [] => None
  | [c] => if is_digit c then Some (digit_val c) else None
  | c :: _ => if Ascii.eqb c "0"%char then None else digits_val 0 s
  end.

(** The own member [k] of a value: a field of an object, an element or
    the length of an array or of a string. *)
Definition own (v : jsval) (k : str) : option jsval :=
  match v with
  | JObj fields => own_field k fields
  | JArr items =>
      if str_eqb k (lit "length") then Some (JNum (Z.of_nat (length items)))
      else match parse_index k with
           | Some i => nth_error items i
           | None => None
           end
  | JStr s =>
      if str_eqb k (lit "length") then Some (JNum (Z.of_nat (length s)))
      else match parse_index k with
           | Some i => match nth_error s i with
                       | Some c => Some (JStr [c])
                       | None => None
                       end
           | None => None
           end
  | _ => None
  end.

(** What the runtime supplies.  [inherited v k] is the outcome of [v[k]]
    when [k] is not an own member of [v]: the member found along the
    prototype chain, whose getter may throw, or [undefined].
    [object_string v] is the outcome of [String(v)] for an object, an array
    or a value of the runtime, which calls the [toString] or [valueOf]
    method that [v] has or inherits. *)
Record runtime := {
  inherited : jsval -> str -> result jsval;
  object_string : jsval -> result str
}.

(** [v[k]]: a [TypeError] on [undefined] and [null]. *)
Definition get (rt : runtime) (v : jsval) (k : str) : result jsval :=
  match v with
  | JUndefined | JNull => Throw JsTypeError
  | _ =>
      match own v k with
      | Some x => Ok x
      | None => inherited rt v k
      end
  end.

(** [String(v)] *)
Definition to_string (rt : runtime) (v : jsval) : result str :=
  match v with
  | JUndefined => Ok (lit "undefined")
  | JNull => Ok (lit "null")
  | JBool true => Ok (lit "true")
  | JBool false => Ok (lit "false")
  | JNum z => Ok (num_to_str z)
  | JReal text => Ok text
  | JStr s => Ok s
  | JObj _ | JArr _ | JBuiltin _ => object_string rt v
  end.

(** [v[k]] and [v.k] for a member name [k] of the program's own data (the
    keys of package.json and of the configuration that the program reads
    by name), which no built-in prototype defines: the own member, else
    [undefined]. *)
Definition member (v : jsval) (k : str) : jsval :=
  match own v k with
  | Some x => x
  | None => JUndefined
  end.

End JsValue.

(** ** A runtime

    The built-in objects that every value inherits from in every edition
    of the language: Object.prototype and Function.prototype, the
    prototypes of arrays, strings, numbers and booleans with the members
    that replace those of Object.prototype, and the six constructors.  The
    further methods of arrays, strings and numbers and the static members
    of the constructors differ from one edition to the next and are not
    listed.  The string forms are those of Node.js, and [String] of an
    object is that of an object made of data.  The examples below run on
    this runtime; the properties are stated for every runtime. *)

Module Runtime.
Import JsString JsError JsValue.

(** The methods of a prototype, each with its [length]. *)
Definition OBJECT_PROTOTYPE : list (str * Z) :=
  [ (lit "__defineGetter__", 2%Z); (lit "__defineSetter__", 2%Z);
    (lit "hasOwnProperty", 1%Z); (lit "__lookupGetter__", 1%Z);
    (lit "__lookupSetter__", 1%Z); (lit "isPrototypeOf", 1%Z);
    (lit "propertyIsEnumerable", 1%Z); (lit "toString", 0%Z);
    (lit "valueOf", 0%Z); (lit "toLocaleString", 0%Z) ].

Definition FUNCTION_PROTOTYPE : list (str * Z) :=
  [ (lit "apply", 2%Z); (lit "bind", 1%Z); (lit "call", 1%Z);
    (lit "toString", 0%Z) ].

Definition ARRAY_PROTOTYPE : list (str * Z) :=
  [ (lit "toString", 0%Z); (lit "toLocaleString", 0%Z) ].

Definition STRING_PROTOTYPE : list (str * Z) :=
  [ (lit "toString", 0%Z); (lit "valueOf", 0%Z) ].

Definition NUMBER_PROTOTYPE : list (str * Z) :=
  [ (lit "toString", 1%Z); (lit "valueOf", 0%Z); (lit "toLocaleString", 0%Z) ].

Definition BOOLEAN_PROTOTYPE : list (str * Z) :=
  [ (lit "toString", 0%Z); (lit "valueOf", 0%Z) ].

Definition CONSTRUCTORS : list str :=
  [ lit "Object"; lit "Function"; lit "Array"; lit "String"; lit "Number";
    lit "Boolean" ].

Definition methods_of (constructor : str) : list (str * Z) :=
  if str_eqb constructor (lit "Object") then OBJECT_PROTOTYPE
  else if str_eqb constructor (lit "Function") then FUNCTION_PROTOTYPE
  else if str_eqb constructor (lit "Array") then ARRAY_PROTOTYPE
  else if str_eqb constructor (lit "String") then STRING_PROTOTYPE
  else if str_eqb constructor (lit "Number") then NUMBER_PROTOTYPE
  else if str_eqb constructor (lit "Boolean") then BOOLEAN_PROTOTYPE
  else [].

Fixpoint arity_of (k : str) (methods : list (str * Z)) : option Z :=
  match methods with
  | [] => None
  | (k', n) :: methods' => if str_eqb k k' then Some n else arity_of k methods'
  end.

(** The built-in objects by name: [C] is a constructor, [C.prototype] its
    prototype and [C.prototype.m] a method of the prototype. *)
Inductive builtin : Type :=
| Constructor (constructor : str)
| Prototype (constructor : str)
| Method (constructor name : str) (arity : Z).

Definition prototype_name (constructor : str) : str :=
  constructor ++ lit ".prototype".

Definition method_name (constructor name : str) : str :=
  prototype_name constructor ++ lit "." ++ name.

Definition classify_in (constructor name : str) : option builtin :=
  if str_eqb name constructor then Some (Constructor constructor)
  else if str_eqb name (prototype_name constructor)
  then Some (Prototype constructor)
  else
    match
      filter (fun m => str_eqb name (method_name constructor (fst m)))
        (methods_of constructor)
    with
    | m :: _ => Some (Method constructor (fst m) (snd m))
    | [] => None
    end.

Fixpoint classify_among (constructors : list str) (name : str)
  : option builtin :=
  match constructors with
  | [] => None
  | c :: constructors' =>
      match classify_in c name with
      | Some b => Some b
      | None => classify_among constructors' name
      end
  end.

Definition classify (name : str) : option builtin :=
  classify_among CONSTRUCTORS name.

(** The member [k] of the prototype of [constructor], for a value whose
    prototype chain starts there: the prototype's own member, else that of
    Object.prototype.  [first] is the prototype at which the chain of the
    value starts, the answer of [__proto__]. *)
Definition own_of_prototype (constructor : str) (k : str) : option jsval :=
  if str_eqb k (lit "constructor") then Some (JBuiltin constructor)
  else
    match arity_of k (methods_of constructor) with
    | Some _ => Some (JBuiltin (method_name constructor k))
    | None =>
        if str_eqb constructor (lit "Function") then
          if str_eqb k (lit "name") then Some (JStr [])
          else if str_eqb k (lit "length") then Some (JNum 0)
          else None
        else if str_eqb constructor (lit "Array")
                || str_eqb constructor (lit "String") then
          if str_eqb k (lit "length") then Some (JNum 0) else None
        else None
    end.

(** The accessors [caller] and [arguments] of Function.prototype throw
    for every built-in function. *)
Definition poisoned (constructor k : str) : bool :=
  str_eqb constructor (lit "Function")
  && (str_eqb k (lit "caller") || str_eqb k (lit "arguments")).

Definition from_object_prototype (first : jsval) (k : str) : result jsval :=
  if str_eqb k (lit "__proto__") then Ok first
  else
    match own_of_prototype (lit "Object") k with
    | Some x => Ok x
    | None => Ok JUndefined
    end.

Definition from_prototype (constructor : str) (first : jsval) (k : str)
  : result jsval :=
  if poisoned constructor k then Throw JsTypeError
  else if str_eqb constructor (lit "Object")
  then from_object_prototype first k
  else
    match own_of_prototype constructor k with
    | Some x => Ok x
    | None => from_object_prototype first k
    end.

Definition builtin_member (name k : str) : result jsval :=
  match classify name with
  | Some (Constructor c) =>
      if str_eqb k (lit "name") then Ok (JStr c)
      else if str_eqb k (lit "length") then Ok (JNum 1)
      else if str_eqb k (lit "prototype")
      then Ok (JBuiltin (prototype_name c))
      else from_prototype (lit "Function")
             (JBuiltin (prototype_name (lit "Function"))) k
  | Some (Method _ m arity) =>
      if str_eqb k (lit "name") then Ok (JStr m)
      else if str_eqb k (lit "length") then Ok (JNum arity)
      else from_prototype (lit "Function")
             (JBuiltin (prototype_name (lit "Function"))) k
  | Some (Prototype c) =>
      if poisoned c k then Throw JsTypeError
      else
        match own_of_prototype c k with
        | Some x => Ok x
        | None =>
            if str_eqb c (lit "Object")
            then from_object_prototype JNull k
            else from_object_prototype
                   (JBuiltin (prototype_name (lit "Object"))) k
        end
  | None => Ok JUndefined
  end.

Definition inherited (v : jsval) (k : str) : result jsval :=
  let chain c := from_prototype c (JBuiltin (prototype_name c)) k in
  match v with
  | JUndefined | JNull => Throw JsTypeError
  | JBool _ => chain (lit "Boolean")
  | JNum _ | JReal _ => chain (lit "Number")
  | JStr _ => chain (lit "String")
  | JObj _ => chain (lit "Object")
  | JArr _ => chain (lit "Array")
  | JBuiltin name => builtin_member name k
  end.

Definition native (name : str) : str :=
  lit "function " ++ name ++ lit "() { [native code] }".

Definition builtin_string (name : str) : result str :=
  match classify name with
  | Some (Constructor c) => Ok (native c)
  | Some (Method _ m _) => Ok (native m)
  | Some (Prototype c) =>
      if str_eqb c (lit "Function") then Ok (native [])
      else if str_eqb c (lit "Number") then Ok (lit "0")
      else if str_eqb c (lit "Boolean") then Ok (lit "false")
      else if str_eqb c (lit "Object") then Ok (lit "[object Object]")
      else Ok []
  | None => Ok (lit "[object Object]")
  end.

(** [String(v)]: an object made of data has the string form of
    Object.prototype.toString unless it has a member named [toString],
    which is not a function, and then the conversion fails, as
    Object.prototype.valueOf gives no primitive value either; an array is
    joined with commas, [undefined] and [null] giving the empty string. *)
Fixpoint string_of (v : jsval) : result str :=
  match v with
  | JUndefined => Ok (lit "undefined")
  | JNull => Ok (lit "null")
  | JBool true => Ok (lit "true")
  | JBool false => Ok (lit "false")
  | JNum z => Ok (num_to_str z)
  | JReal text => Ok text
  | JStr s => Ok s
  | JObj fields =>
      match own_field (lit "toString") fields with
      | None => Ok (lit "[object Object]")
      | Some _ => Throw JsTypeError
      end
  | JArr items =>
      bind
        ((fix each (items : list jsval) : result (list str) :=
            match items with
            | [] => Ok []
            | x :: items' =>
                bind (if is_nullish x then Ok [] else string_of x)
                  (fun s => bind (each items') (fun ss => Ok (s :: ss)))
            end) items)
        (fun ss => Ok (join (lit ",") ss))
  | JBuiltin name => builtin_string name
  end.

Definition standard : runtime :=
  {| JsValue.inherited := inherited; object_string := string_of |}.

End Runtime.

(** ** src/core/template-engine.ts *)

Module TemplateEngine.
Import JsString JsError Regex JsValue.

(** [/\{\{(.*?)\}\}/g] *)
Definition TEMPLATE_PLACEHOLDER_REGEX : regex :=
  seqs [L "{{"; Grp 1 (Star false dot); L "}}"].

(** The loop of [getValueFromContext] and the conversion behind it:
    [None] is the [undefined] it returns. *)
Fixpoint descend (rt : runtime) (parts : list str) (value : jsval)
  : result (option str) :=
  match parts with
  | [] =>
      if is_undefined value then Ok None
      else bind (to_string rt value) (fun s => Ok (Some s))
  | part :: parts' =>
      if is_nullish value then Ok None
      else bind (get rt value part) (descend rt parts')
  end.

Definition getValueFromContext (rt : runtime) (path : str) (context : jsval)
  : result (option str) :=
  descend rt (split_on "."%char path) context.

(** The replacer passed to [replace] by [processTemplate]. *)
Definition template_replacer (rt : runtime) (template : str)
  (context : jsval) (res : mresult) : result str :=
  let trimmedPlaceholder := trim (group 1 res) in
  bind (getValueFromContext rt trimmedPlaceholder context)
    (fun value =>
       match value with
       | Some value => Ok value
       | None => Ok (matched template res)
       end).

Definition processTemplate (rt : runtime) (templateContent : str)
  (context : jsval) : result str :=
  replace_all_try TEMPLATE_PLACEHOLDER_REGEX
    (template_replacer rt templateContent context) templateContent.

(** The replacer passed to [replace] by [processFileName]. *)
Definition filename_replacer (rt : runtime) (fileName : str)
  (context : jsval) (res : mresult) : result str :=
  let trimmedPlaceholder := trim (group 1 res) in
  bind (getValueFromContext rt trimmedPlaceholder context)
    (fun value =>
       match value with
       | Some value => Ok value
       | None => Ok (matched fileName res)
       end).

Definition processFileName (rt : runtime) (fileName : str) (context : jsval)
  : result str :=
  replace_all_try TEMPLATE_PLACEHOLDER_REGEX
    (filename_replacer rt fileName context) fileName.

End TemplateEngine.

(** ** Logging and file writes

    [Logger] prints leveled messages; the model keeps them in order. *)

Module Effects.
Import JsString.

Inductive level : Type := Debug | Info | Warn | Error | Success.

Definition level_eqb (a b : level) : bool :=
  match a, b with
  | Debug, Debug | Info, Info | Warn, Warn | Error, Error
  | Success, Success => true
  | _, _ => false
  end.

Definition log_entry : Type := (level * str)%type.

(** What one run of a patcher did to its target file: the content it
    wrote with [fs.writeFile], if it wrote, and what it logged. *)
Record effect := {
  written : option str;
  log : list log_entry
}.

Definition no_write (l : list log_entry) : effect :=
  {| written := None; log := l |}.

Definition write (content : str) (l : list log_entry) : effect :=
  {| written := Some content; log := l |}.

(** The content of the target file after the run. *)
Definition file_after (before : str) (e : effect) : str :=
  match written e with Some c => c | None => before end.


Definition logged (lv : level) (e : effect) : bool :=
  existsb (fun entry => level_eqb (fst entry) lv) (log e).

Definition nl : str := ["010"%char].
Definition dq : str := ["034"%char].

End Effects.

(** ** src/utils/config.ts *)

Module ConfigManager.
Import JsString Effects.

Inductive Network : Type := MainnetBeta | Testnet | Devnet | Localnet.

Definition network_name (n : Network) : str :=
  match n with
  | MainnetBeta => lit "mainnet-beta"
  | Testnet => lit "testnet"
  | Devnet => lit "devnet"
  | Localnet => lit "localnet"
  end.

Record Features := {
  transactions : bool;
  tokens : bool;
  nfts : bool
}.

Record SolanaConfig := {
  network : Network;
  wallets : list str;
  features : Features;
  useAppKit : option bool;
  projectId : option str
}.

Definition DEFAULT_CONFIG : SolanaConfig :=
  {| network := Devnet;
     wallets := [lit "phantom"; lit "solflare"; lit "backpack"; lit "brave"];
     features := {| transactions := true; tokens := false; nfts := false |};
     useAppKit := Some true;
     projectId := Some (lit "b56e18d47c72ab683b10814fe9495694") |}.

Definition truthy (b : option bool) : bool :=
  match b with Some true => true | _ => false end.

(** [config.projectId || ""] *)
Definition projectId_or_empty (config : SolanaConfig) : str :=
  match projectId config with Some p => p | None => [] end.

Definition networkUrls : list (str * str) :=
  [ (lit "mainnet-beta", lit "https://api.mainnet-beta.solana.com");
    (lit "testnet", lit "https://api.testnet.solana.com");
    (lit "devnet", lit "https://api.devnet.solana.com");
    (lit "localnet", lit "http://127.0.0.1:8899") ].

Fixpoint table_get (k : str) (t : list (str * str)) : option str :=
  match t with
  | [] => None
  | (k', v) :: t' => if str_eqb k k' then Some v else table_get k t'
  end.

(** [`${networkUrls[name]}`] *)
Definition network_url (name : str) : str :=
  match table_get name networkUrls with
  | Some u => u
  | None => lit "undefined"
  end.

Definition appkit_block (config : SolanaConfig) : str :=
  lit "
# Reown AppKit Configuration
NEXT_PUBLIC_PROJECT_ID=" ++ projectId_or_empty config ++ lit "
".

Definition generateEnvContent (config : SolanaConfig) : str :=
  let content :=
    lit "# Solana Configuration
NEXT_PUBLIC_SOLANA_NETWORK=" ++ network_name (network config) ++ lit "
NEXT_PUBLIC_SOLANA_RPC_URL=" ++ network_url (network_name (network config))
    ++ lit "

# For server-side operations (optional)
SOLANA_PRIVATE_KEY=YOUR_PRIVATE_KEY_HERE

# Note: Never commit private keys to source control
# Use this file as a template and create a .env.local file with your actual keys
" in
  if truthy (useAppKit config) then content ++ appkit_block config
  else content.

(** The two files [createEnvFile] touches; [None] is a file that does not
    exist.  Writes are taken to succeed. *)
Record env_files := {
  env_local : option str;
  env_example : option str
}.

Definition createEnvFile (config : SolanaConfig) (fs : env_files)
  : env_files * list log_entry :=
  let envContent := generateEnvContent config in
  let '(local, log1) :=
    match env_local fs with
    | None =>
        (Some envContent,
         [(Success, lit "Created .env.local with Solana configuration")])
    | Some currentEnv =>
        let dbg := (Debug, lit ".env.local already exists, checking if AppKit env vars need to be added") in
        if truthy (useAppKit config) then
          if negb (includes (lit "NEXT_PUBLIC_PROJECT_ID=") currentEnv) then
            (Some (currentEnv ++ appkit_block config),
             [dbg; (Success, lit "Updated .env.local with AppKit project ID")])
          else (Some currentEnv, [dbg])
        else (Some currentEnv, [dbg])
    end in
  ({| env_local := local; env_example := Some envContent |},
   log1 ++ [(Success, lit "Created .env.example with Solana configuration")]).

(** The lines of an environment file and the keys they set (used to state
    properties; the program itself never parses the file). *)
Definition lines (s : str) : list str := split_on "010"%char s.

Definition line_key (l : str) : option str :=
  match l with
  | [] => None
  | c :: _ =>
      if Ascii.eqb c "#"%char then None
      else match find (lit "=") l with
           | Some i => Some (firstn i l)
           | None => None
           end
  end.

Fixpoint env_keys_of (ls : list str) : list str :=
  match ls with
  | [] => []
  | l :: ls' =>
      match line_key l with
      | Some k => k :: env_keys_of ls'
      | None => env_keys_of ls'
      end
  end.

Definition env_keys (s : str) : list str := env_keys_of (lines s).

End ConfigManager.

(** ** Import anchors and wrapping, shared by the framework modules

    Every entry-point patcher repeats the same lines: collect the import
    statements with a [gm] pattern, take the last one, and splice the new
    import right behind the last place where its text occurs; with no
    import statement, put the new import in front of the file. *)

Module Imports.
Import JsString Regex Effects.

(** [/^import.*?;(\r?\n|$)/gm] *)
Definition IMPORT_RE : regex :=
  seqs [Bol true; L "import"; Star false dot; Chr ";"%char;
        Grp 1 (Alt (Seq (Opt (Chr "013"%char)) (Chr "010"%char)) (Eol true))].

(** [/^import.*?;?(\r?\n|$)/gm], the variant of the Vue module. *)
Definition IMPORT_OPT_SEMI_RE : regex :=
  seqs [Bol true; L "import"; Star false dot; Opt (Chr ";"%char);
        Grp 1 (Alt (Seq (Opt (Chr "013"%char)) (Chr "010"%char)) (Eol true))].

(** [importPos]: [content.lastIndexOf(lastImport) + lastImport.length]. *)
Definition importPos (re : regex) (content : str) : option Z :=
  match match_global re content with
  | Some importSection =>
      let lastImport := last importSection [] in
      Some (lastIndexOf lastImport content + Z.of_nat (length lastImport))%Z
  | None => None
  end.

(** [content.substring(0, pos) + text + content.substring(pos)] *)
Definition insert_at (content : str) (pos : Z) (text : str) : str :=
  substring content 0 pos ++ text ++ substring_from content pos.

Definition add_import (re : regex) (behind_imports in_front : str)
  (content : str) : str :=
  match importPos re content with
  | Some pos => insert_at content pos behind_imports
  | None => in_front ++ content
  end.

End Imports.

(** ** src/frameworks/nextjs/index.ts *)

Module NextjsFramework.
Import JsString Regex Effects Imports.

(** *** updateNextConfig *)

Definition default_next_config : str :=
  lit "/** @type {import('next').NextConfig} */
module.exports = {
  reactStrictMode: true,
};
".

(** [/transpilePackages\s*:\s*\[(.*?)\]/s] *)
Definition TRANSPILE_RE : regex :=
  seqs [L "transpilePackages"; ws_star; Chr ":"%char; ws_star; Chr "["%char;
        Grp 1 (Star false any); Chr "]"%char].

(** [/module\.exports\s*=\s*{/] *)
Definition MODULE_EXPORTS_RE : regex :=
  seqs [L "module.exports"; ws_star; Chr "="%char; ws_star; Chr "{"%char].

(** [/export default\s*{/] *)
Definition EXPORT_DEFAULT_RE : regex :=
  seqs [L "export default"; ws_star; Chr "{"%char].

(** [/};\s*$/] and [/}\s*$/], with and without the capture around the
    trailing white space. *)
Definition CLOSE_SEMI_TEST_RE : regex := seqs [L "};"; ws_star; Eol false].
Definition CLOSE_SEMI_RE : regex := seqs [L "};"; Grp 1 ws_star; Eol false].
Definition CLOSE_TEST_RE : regex := seqs [L "}"; ws_star; Eol false].
Definition CLOSE_RE : regex := seqs [L "}"; Grp 1 ws_star; Eol false].

(** The pattern for an existing webpack function: capture 1 runs from
    [webpack: (config) => {] over every code unit that is not a closing
    brace, capture 2 is [return config;]. *)
Definition WEBPACK_RE : regex :=
  seqs [Grp 1 (seqs [L "webpack"; ws_star; Chr ":"%char; ws_star;
                     Chr "("%char; ws_star; L "config"; ws_star;
                     Chr ")"%char; ws_star; L "=>"; ws_star; Chr "{"%char;
                     Star true (not_chr "}"%char)]);
        Grp 2 (L "return config;")].

Definition newPackages : list str :=
  [lit "@solana/wallet-adapter-base";
   lit "@solana/wallet-adapter-react";
   lit "@solana/wallet-adapter-react-ui";
   lit "@solana/wallet-adapter-wallets"].

(** The replacer passed with [TRANSPILE_RE]. *)
Definition transpile_replacer (res : mresult) : str :=
  let packagesList := trim (group 1 res) in
  match packagesList with
  | _ :: _ =>
      lit "transpilePackages: [" ++ packagesList
      ++ (if endsWith (lit ",") packagesList then [] else lit ",")
      ++ lit " '" ++ join (lit "', '") newPackages ++ lit "']"
  | [] =>
      lit "transpilePackages: ['" ++ join (lit "', '") newPackages ++ lit "']"
  end.

Definition module_exports_template : str :=
  lit "module.exports = {
  transpilePackages: ['@solana/wallet-adapter-base', '@solana/wallet-adapter-react', '@solana/wallet-adapter-react-ui', '@solana/wallet-adapter-wallets'],".

Definition export_default_template : str :=
  lit "export default {
  transpilePackages: ['@solana/wallet-adapter-base', '@solana/wallet-adapter-react', '@solana/wallet-adapter-react-ui', '@solana/wallet-adapter-wallets'],".

Definition fallback_config : str :=
  lit "/** @type {import('next').NextConfig} */
module.exports = {
  reactStrictMode: true,
  transpilePackages: [
    '@solana/wallet-adapter-base',
    '@solana/wallet-adapter-react',
    '@solana/wallet-adapter-react-ui',
    '@solana/wallet-adapter-wallets'
  ],
};
".

Definition webpackConfig : str :=
  lit "
  webpack: (config) => {
    config.resolve.fallback = {
      ...config.resolve.fallback,
      fs: false,
      os: false,
      path: false,
      crypto: false,
    };
    config.externals.push('pino-pretty', 'lokijs', 'encoding');
    return config;
  },".

Definition externals_template : str :=
  lit "$1config.externals.push('pino-pretty', 'lokijs', 'encoding');
    $2".

Definition MARKER : str := lit "@solana/wallet-adapter".

(** Step one: the transpilePackages entry. *)
Definition add_transpile (content : str) : str :=
  if includes (lit "transpilePackages") content then
    replace_fn TRANSPILE_RE transpile_replacer content
  else if includes (lit "module.exports") content then
    replace_tpl MODULE_EXPORTS_RE 0 module_exports_template content
  else if includes (lit "export default") content then
    replace_tpl EXPORT_DEFAULT_RE 0 export_default_template content
  else fallback_config.

(** Step two: the webpack function. *)
Definition add_webpack (updatedContent : str) : str :=
  if negb (includes (lit "webpack") updatedContent) then
    if test CLOSE_SEMI_TEST_RE updatedContent then
      replace_tpl CLOSE_SEMI_RE 1 (webpackConfig ++ nl ++ lit "};$1")
        updatedContent
    else if test CLOSE_TEST_RE updatedContent then
      replace_tpl CLOSE_RE 1 (webpackConfig ++ nl ++ lit "}$1")
        updatedContent
    else updatedContent
  else if negb (includes (lit "externals") updatedContent) then
    replace_tpl WEBPACK_RE 2 externals_template updatedContent
  else updatedContent.

(** [updateNextConfig], from the point where the config file is read. *)
Definition updateNextConfig (content : str) : effect :=
  if includes MARKER content then
    no_write [(Debug, lit "Next.js config already has Solana setup")]
  else
    write (add_webpack (add_transpile content))
      [(Success, lit "Updated Next.js configuration")].

(** What step one and step two make of a file with no anchor. *)
Definition fallback_config_with_webpack : str :=
  lit "/** @type {import('next').NextConfig} */
module.exports = {
  reactStrictMode: true,
  transpilePackages: [
    '@solana/wallet-adapter-base',
    '@solana/wallet-adapter-react',
    '@solana/wallet-adapter-react-ui',
    '@solana/wallet-adapter-wallets'
  ],

  webpack: (config) => {
    config.resolve.fallback = {
      ...config.resolve.fallback,
      fs: false,
      os: false,
      path: false,
      crypto: false,
    };
    config.externals.push('pino-pretty', 'lokijs', 'encoding');
    return config;
  },
};
".

(** The whole function on a project whose config file may be missing: a
    missing file is first created with [default_next_config]. *)
Definition updateNextConfig_file (existing : option str) : str :=
  let content :=
    match existing with Some c => c | None => default_next_config end in
  file_after content (updateNextConfig content).


(** *** updateAppRouterEntryPoint

    The function has two branches with the same shape, one for Reown
    AppKit and one for the wallet adapter; they differ in the texts they
    look for and insert, which [provider] collects. *)

Record provider := {
  guard_tokens : list str;
  guard_message : str;
  body_template : str;
  first_name : str;
  importStatement : str;
  behind_imports : str;
  in_front : str;
  name : str
}.

Definition appkit : provider :=
  {| guard_tokens := [lit "ContextProvider"; lit "AppKitProvider"];
     guard_message := lit "AppKit provider already present in layout";
     body_template := lit "<body$1>
        <ContextProvider>
          {children}
        </ContextProvider>
      </body>";
     first_name := lit "ContextProvider";
     importStatement :=
       nl ++ lit "import ContextProvider from " ++ dq ++ lit "@/context"
       ++ dq ++ lit ";" ++ nl;
     behind_imports := lit "
// Import AppKit provider
import { AppKitProvider } from '../config/context';
";
     in_front := lit "// Import AppKit provider
import { AppKitProvider } from '../config/context';

";
     name := lit "AppKitProvider" |}.

Definition wallet_adapter : provider :=
  {| guard_tokens := [lit "ClientWalletProvider"];
     guard_message := lit "ClientWalletProvider already present in layout";
     body_template := lit "<body$1>
        <ClientWalletProvider>
          {children}
        </ClientWalletProvider>
      </body>";
     first_name := lit "ClientWalletProvider";
     importStatement :=
       nl ++ lit "import { ClientWalletProvider } from " ++ dq
       ++ lit "../solana/wallet" ++ dq ++ lit ";" ++ nl;
     behind_imports := lit "
// Import Solana wallet provider
import { ClientWalletProvider } from '../solana/wallet';
";
     in_front := lit "// Import Solana wallet provider
import { ClientWalletProvider } from '../solana/wallet';

";
     name := lit "ClientWalletProvider" |}.

Definition open_tag (p : provider) : str := lit "<" ++ name p ++ lit ">".
Definition close_tag (p : provider) : str := lit "</" ++ name p ++ lit ">".
Definition wrapped_children (p : provider) : str :=
  open_tag p ++ lit "{children}" ++ close_tag p.

(** The pattern of the Next.js 15 template: a body tag with attributes
    whose only content is the children expression.  The second form has
    capture 1 around the attributes. *)
Definition body_attrs : regex := seqs [ws_plus; Star true (not_chr ">"%char)].

Definition body_rest : regex :=
  seqs [Chr ">"%char; ws_star; Chr "{"%char; ws_star; L "children"; ws_star;
        Chr "}"%char; ws_star; L "</body>"].

Definition NEXTJS_BODY_TEST_RE : regex := seqs [L "<body"; body_attrs; body_rest].
Definition NEXTJS_BODY_RE : regex :=
  seqs [L "<body"; Grp 1 body_attrs; body_rest].

(** [/^import .+$/m]; the same pattern serves with the [g] flag. *)
Definition IMPORT_LINE_RE : regex :=
  seqs [Bol true; L "import "; Plus true dot; Eol true].

Definition globals_css : str :=
  lit "import " ++ dq ++ lit "./globals.css" ++ dq.

(** Body tag, anything, the children expression, anything, closing tag. *)
Definition body_open : regex :=
  seqs [L "<body"; Star true (not_chr ">"%char); Chr ">"%char].

Definition BODY_RE : regex :=
  seqs [Grp 1 body_open; Grp 2 (Star false any); Grp 3 (L "{children}");
        Grp 4 (Star false any); Grp 5 (L "</body>")].

Definition SIMPLE_BODY_RE : regex :=
  seqs [Grp 1 body_open; Grp 2 (Star false any); Grp 3 (L "</body>")].

(** [return (] ... [)], an optional semicolon, then a closing brace or the
    end of the file; capture 1 is what stands between the parentheses. *)
Definition RETURN_RE : regex :=
  seqs [L "return"; ws_star; Chr "("%char; ws_star; Grp 1 (Star false any);
        Chr ")"%char; Opt (Chr ";"%char); ws_star;
        Alt (Chr "}"%char) (Eol false)].

Definition children : str := lit "{children}".

(** The part of a branch that handles the Next.js 15 template. *)
Definition patch_nextjs_body (p : provider) (content : str) : str :=
  let content := replace_tpl NEXTJS_BODY_RE 1 (body_template p) content in
  if includes globals_css content then
    replace_str content (globals_css ++ lit ";")
      (globals_css ++ lit ";" ++ importStatement p)
  else if test IMPORT_LINE_RE content then
    match match_global IMPORT_LINE_RE content with
    | Some imports =>
        let lastImport := last imports [] in
        replace_str content lastImport (lastImport ++ importStatement p)
    | None => importStatement p ++ content
    end
  else importStatement p ++ content.

(** The chain of fallbacks for every other layout: [Some] is the content
    to write, [None] comes with the warning to log. *)
Definition wrap_children (p : provider) (updatedContent : str)
  : str + str :=
  match exec BODY_RE updatedContent with
  | Some bodyMatch =>
      let fullMatch := matched updatedContent bodyMatch in
      let wrappedContent :=
        group 1 bodyMatch ++ group 2 bodyMatch ++ open_tag p
        ++ group 3 bodyMatch ++ close_tag p ++ group 4 bodyMatch
        ++ group 5 bodyMatch in
      inl (replace_str updatedContent fullMatch wrappedContent)
  | None =>
      match exec SIMPLE_BODY_RE updatedContent with
      | Some simpleBodyMatch =>
          let fullMatch := matched updatedContent simpleBodyMatch in
          let bodyOpen := group 1 simpleBodyMatch in
          let bodyContent := group 2 simpleBodyMatch in
          let bodyClose := group 3 simpleBodyMatch in
          if includes children bodyContent then
            let newBodyContent :=
              replace_str bodyContent children (wrapped_children p) in
            inl (replace_str updatedContent fullMatch
                   (bodyOpen ++ newBodyContent ++ bodyClose))
          else
            let insertionPoint := lastIndexOf (lit "<") bodyContent in
            if (0 <? insertionPoint)%Z then
              let beforeInsert := substring bodyContent 0 insertionPoint in
              let afterInsert := substring_from bodyContent insertionPoint in
              inl (replace_str updatedContent fullMatch
                     (bodyOpen ++ beforeInsert ++ open_tag p
                      ++ (if startsWith children (trim afterInsert)
                          then afterInsert else children ++ afterInsert)
                      ++ close_tag p ++ bodyClose))
            else
              inl (replace_str updatedContent fullMatch
                     (bodyOpen ++ open_tag p
                      ++ (match bodyContent with
                          | [] => children
                          | _ :: _ => bodyContent
                          end)
                      ++ close_tag p ++ bodyClose))
      | None =>
          match exec RETURN_RE updatedContent with
          | Some returnMatch =>
              let fullMatch := matched updatedContent returnMatch in
              let returnContent := group 1 returnMatch in
              if includes children returnContent then
                let newReturnContent :=
                  replace_str returnContent children (wrapped_children p) in
                inl (replace_str updatedContent fullMatch
                       (lit "return (" ++ newReturnContent ++ lit ");"))
              else
                inr (lit "Could not locate {children} in return statement. Please add "
                     ++ name p ++ lit " manually.")
          | None =>
              inr (lit "Could not automatically update layout with "
                   ++ name p ++ lit ". Please add it manually.")
          end
      end
  end.

(** The layout with the import statement added. *)
Definition layout_with_import (p : provider) (content : str) : str :=
  add_import IMPORT_RE (behind_imports p) (in_front p) content.

Definition patch_layout (p : provider) (layoutFile content : str) : effect :=
  if existsb (fun t => includes t content) (guard_tokens p) then
    no_write [(Debug, guard_message p)]
  else if test NEXTJS_BODY_TEST_RE content then
    write (patch_nextjs_body p content)
      [(Success, lit "Added " ++ first_name p ++ lit " to " ++ layoutFile)]
  else
    let updatedContent := layout_with_import p content in
    match wrap_children p updatedContent with
    | inl updatedContent =>
        write updatedContent
          [(Success, lit "Added " ++ name p ++ lit " to " ++ layoutFile)]
    | inr warning => no_write [(Warn, warning)]
    end.

(** [updateAppRouterEntryPoint], from the point where the layout file is
    read.  [context_config] is [context.config]: [None] when the context
    has no such member, and then reading [context.config.useAppKit]
    throws inside the [try] block, the [catch] logs the error and nothing
    is written; [Some b] gives the truth value of [useAppKit]. *)
Definition updateAppRouterEntryPoint (context_config : option bool)
  (layoutFile content : str) : effect :=
  match context_config with
  | None => no_write [(Error, lit "Failed to update App Router layout")]
  | Some true => patch_layout appkit layoutFile content
  | Some false => patch_layout wallet_adapter layoutFile content
  end.

(** *** updatePagesRouterEntryPoint *)

(** [return (], the Component element with its props in braces, [)];
    captures 1 to 3 are the three parts. *)
Definition COMPONENT_RE : regex :=
  seqs [Grp 1 (seqs [ws_star; L "return"; ws_star; Chr "("%char; ws_star]);
        Grp 2 (seqs [L "<Component"; ws_star; Chr "{"%char; Star false any;
                     Chr "}"%char; ws_star; L "/>"]);
        Grp 3 (seqs [ws_star; Chr ")"%char])].

(** The _app content with the import statement added. *)
Definition app_with_import (content : str) : str :=
  add_import IMPORT_RE
    (lit "
import { SolanaProvider } from '../solana/wallet';
")
    (lit "import { SolanaProvider } from '../solana/wallet';

") content.

Definition app_not_found_warning : log_entry :=
  (Warn, lit "Could not automatically update _app with SolanaProvider. Please add it manually.").

(** [updatePagesRouterEntryPoint], from the point where an existing _app
    file is read. *)
Definition updatePagesRouterEntryPoint (appFile content : str) : effect :=
  if includes (lit "SolanaProvider") content then
    no_write [(Debug, lit "SolanaProvider already present in _app file")]
  else
    let updatedContent := app_with_import content in
    match exec COMPONENT_RE updatedContent with
    | Some componentMatch =>
        let fullMatch := matched updatedContent componentMatch in
        let prefix := group 1 componentMatch in
        let component := group 2 componentMatch in
        let suffix := group 3 componentMatch in
        let wrappedComponent :=
          prefix ++ lit "<SolanaProvider>
      " ++ component ++ lit "
    </SolanaProvider>" ++ suffix in
        write (replace_str updatedContent fullMatch wrappedComponent)
          [(Success, lit "Added SolanaProvider to " ++ appFile)]
    | None => no_write [app_not_found_warning]
    end.

End NextjsFramework.

(** ** src/frameworks/vue/index.ts *)

Module VueFramework.
Import JsString Regex Effects Imports.

(** [const app = createApp(...)], the middleware section, [app.mount]. *)
Definition APP_RE : regex :=
  seqs [Grp 1 (seqs [L "const"; ws_plus; L "app"; ws_star; Chr "="%char;
                     ws_star; L "createApp"; ws_star; Chr "("%char;
                     Star false any; Chr ")"%char]);
        Grp 2 (Star false any);
        Grp 3 (L "app.mount")].

(** [createApp(...)] and what follows it up to [.mount]. *)
Definition CREATE_APP_RE : regex :=
  seqs [Grp 1 (seqs [L "createApp"; ws_star; Chr "("%char; Star false any;
                     Chr ")"%char; Star false any]);
        L ".mount"].

(** [new Vue({], the options, [})]. *)
Definition VUE_OPTIONS_RE : regex :=
  seqs [Grp 1 (seqs [L "new"; ws_plus; L "Vue"; ws_star; Chr "("%char;
                     ws_star; Chr "{"%char]);
        Grp 2 (Star false any);
        Grp 3 (seqs [Chr "}"%char; ws_star; Chr ")"%char])].

(** [plugins: \[], the list, [\]]. *)
Definition PLUGINS_RE : regex :=
  seqs [Grp 1 (seqs [L "plugins"; ws_star; Chr ":"%char; ws_star;
                     Chr "["%char]);
        Grp 2 (Star false any);
        Grp 3 (Chr "]"%char)].

Definition manual_warning : log_entry :=
  (Warn, lit "Could not automatically update main file with Solana plugin. Please add it manually.").

(** The Vue 3 branch: the new content and the warnings logged. *)
Definition use_plugin_vue3 (updatedContent : str) : str * list log_entry :=
  match exec APP_RE updatedContent with
  | Some appMatch =>
      let appCreation := group 1 appMatch in
      let middlewareSection := group 2 appMatch in
      if includes (lit "app.use(") middlewareSection then
        let lastUse := lastIndexOf (lit "app.use(") middlewareSection in
        let lastUseEndIndex :=
          (indexOf_from (lit ")") middlewareSection lastUse + 1)%Z in
        let updatedMiddlewareSection :=
          substring middlewareSection 0 lastUseEndIndex
          ++ lit "
app.use(SolanaPlugin)"
          ++ substring_from middlewareSection lastUseEndIndex in
        (replace_str updatedContent middlewareSection
           updatedMiddlewareSection, [])
      else
        (replace_str updatedContent appCreation
           (appCreation ++ lit "
app.use(SolanaPlugin)"), [])
  | None =>
      match exec CREATE_APP_RE updatedContent with
      | Some createAppMatch =>
          let appCreation := group 1 createAppMatch in
          (replace_str updatedContent appCreation
             (appCreation ++ lit ".use(SolanaPlugin)"), [])
      | None => (updatedContent, [manual_warning])
      end
  end.

(** The Vue 2 branch. *)
Definition use_plugin_vue2 (updatedContent : str) : str * list log_entry :=
  match exec VUE_OPTIONS_RE updatedContent with
  | Some vueOptionsMatch =>
      let vueOptions := group 2 vueOptionsMatch in
      if negb (includes (lit "plugins") vueOptions) then
        let updatedOptions := vueOptions ++ lit "
  plugins: [SolanaPlugin]," in
        (replace_str updatedContent vueOptions updatedOptions, [])
      else
        match exec PLUGINS_RE vueOptions with
        | Some pluginsMatch =>
            let pluginsFullMatch := matched vueOptions pluginsMatch in
            let pluginsStart := group 1 pluginsMatch in
            let pluginsList := group 2 pluginsMatch in
            let pluginsEnd := group 3 pluginsMatch in
            let updatedPlugins :=
              match pluginsList with
              | _ :: _ => pluginsList ++ lit ", SolanaPlugin"
              | [] => lit "SolanaPlugin"
              end in
            (replace_str updatedContent pluginsFullMatch
               (pluginsStart ++ updatedPlugins ++ pluginsEnd), [])
        | None =>
            (updatedContent,
             [(Warn, lit "Could not automatically update plugins in main file. Please add SolanaPlugin manually.")])
        end
  | None => (updatedContent, [manual_warning])
  end.

(** The content with the import statement added. *)
Definition with_import (content : str) : str :=
  add_import IMPORT_OPT_SEMI_RE
    (lit "
import { SolanaPlugin } from './solana/wallet';
")
    (lit "import { SolanaPlugin } from './solana/wallet';

") content.

(** [updateMainFile], from the point where the main file is read.  The
    branches that warn do not return: the content with the import is
    written, and the success message follows. *)
Definition updateMainFile (mainFile content : str) : effect :=
  if includes (lit "SolanaPlugin") content
     || includes (lit "solana/wallet") content then
    no_write [(Debug, lit "Solana plugin already present in main file")]
  else
    let updatedContent := with_import content in
    let '(updatedContent, warnings) :=
      if includes (lit "createApp(") updatedContent then
        use_plugin_vue3 updatedContent
      else if includes (lit "new Vue(") updatedContent then
        use_plugin_vue2 updatedContent
      else (updatedContent, [manual_warning]) in
    write updatedContent
      (warnings ++ [(Success, lit "Added Solana plugin to " ++ mainFile)]).

End VueFramework.

(** ** src/frameworks/react/index.ts *)

Module ReactFramework.
Import JsString Regex Effects Imports.

(** [ReactDOM.render(<], the root element, the end of its tag, a comma and
    [document.getElementById]. *)
Definition tag_end : regex :=
  seqs [ws_star; Opt (Chr "/"%char); ws_star; Chr ">"%char; ws_star].

Definition REACT_DOM_RENDER_RE : regex :=
  seqs [Grp 1 (seqs [L "ReactDOM.render"; ws_star; Chr "("%char; ws_star;
                     Chr "<"%char]);
        Grp 2 (Star false dot);
        Grp 3 (seqs [tag_end; Chr ","%char; ws_star;
                     L "document.getElementById"])].

(** [createRoot ... ).render(<], the root element, the end of its tag and
    the closing parenthesis. *)
Definition CREATE_ROOT_RE : regex :=
  seqs [Grp 1 (seqs [L "createRoot"; Star false dot; L ").render"; ws_star;
                     Chr "("%char; ws_star; Chr "<"%char]);
        Grp 2 (Star false dot);
        Grp 3 (seqs [tag_end; Chr ")"%char])].

(** [content.match(a) || content.match(b)] *)
Definition appRenderMatch (updatedContent : str) : option mresult :=
  or_else (exec REACT_DOM_RENDER_RE updatedContent)
          (exec CREATE_ROOT_RE updatedContent).

(** The content with the import statement added. *)
Definition with_import (content : str) : str :=
  add_import IMPORT_RE
    (lit "
import { SolanaProvider } from './solana/wallet';
")
    (lit "import { SolanaProvider } from './solana/wallet';

") content.

Definition not_found_warning : log_entry :=
  (Warn, lit "Could not automatically update entry point with SolanaProvider. Please add it manually.").

(** [updateEntryPoint], from the point where the entry file is read. *)
Definition updateEntryPoint (entryFile content : str) : effect :=
  if includes (lit "SolanaProvider") content then
    no_write [(Debug, lit "SolanaProvider already present in entry point")]
  else
    let updatedContent := with_import content in
    match appRenderMatch updatedContent with
    | Some m0 =>
        let fullMatch := matched updatedContent m0 in
        let prefix := group 1 m0 in
        let app := group 2 m0 in
        let suffix := group 3 m0 in
        let wrappedApp :=
          prefix ++ lit "<SolanaProvider>
  " ++ app ++ lit "
</SolanaProvider>" ++ suffix in
        write (replace_str updatedContent fullMatch wrappedApp)
          [(Success, lit "Added SolanaProvider to " ++ entryFile)]
    | None => no_write [not_found_warning]
    end.

End ReactFramework.

(** ** Notions used to state the properties *)

Module Spec.
Import JsString JsError Regex JsValue TemplateEngine Effects.

(** The values that property descent goes through, one member access for
    each segment. *)
Fixpoint walk (rt : runtime) (context : jsval) (parts : list str)
  : result jsval :=
  match parts with
  | [] => Ok context
  | part :: parts' => bind (get rt context part) (fun v => walk rt v parts')
  end.

(** The walk meets [undefined] or [null] while segments remain. *)
Definition stops_mid_walk (rt : runtime) (context : jsval)
  (parts : list str) : Prop :=
  exists pre post v,
    parts = pre ++ post /\ post <> []
    /\ walk rt context pre = Ok v /\ is_nullish v = true.

(** No value comes out of the walk. *)
Definition unresolved (rt : runtime) (context : jsval) (parts : list str)
  : Prop :=
  stops_mid_walk rt context parts \/ walk rt context parts = Ok JUndefined.

(** The segments of the placeholder found by a match. *)
Definition placeholder_path (res : mresult) : list str :=
  split_on "."%char (trim (group 1 res)).

(** [t] occurs in [s]. *)
Definition occurs_in (t s : str) : Prop := exists a b, s = a ++ t ++ b.

(** Successive matches lie one after the other. *)
Fixpoint chain (pos : nat) (ms : list mresult) : Prop :=
  match ms with
  | [] => True
  | res :: ms' => pos <= index res /\ chain (index res + mlen res) ms'
  end.

(** A literal piece of a replacement template that [expand] leaves as it
    is: it has no dollar sign, and its first code unit cannot complete a
    dollar reference that ends just before it. *)
Definition special (c : ascii) : bool :=
  Ascii.eqb c "$"%char || Ascii.eqb c "&"%char || Ascii.eqb c "`"%char
  || Ascii.eqb c "'"%char || is_digit c.

Definition no_dollar (l : str) : bool :=
  forallb (fun x => negb (Ascii.eqb x "$"%char)) l.

Definition plain (l : str) : bool :=
  match l with
  | [] => false
  | c :: _ => negb (special c) && no_dollar l
  end.

(** The template has a plain piece in which [marker] occurs. *)
Definition carries (marker template : str) : Prop :=
  exists a l b,
    template = a ++ l ++ b /\ plain l = true /\ includes marker l = true.

(** The content of the target file after a patcher has run on it. *)
Definition apply_patch (P : str -> effect) (F : str) : str :=
  file_after F (P F).


Definition tokens_guard (tokens : list str) (content : str) : bool :=
  existsb (fun t => includes t content) tokens.

(** A run of a pattern from one matcher state to another: the relation
    the matcher searches. *)
Inductive run : regex -> mstate -> mstate -> Prop :=
| run_eps s : run Eps s s
| run_chr c s t : rest s = c :: t -> run (Chr c) s (advance s c t)
| run_cls p x s t :
    rest s = x :: t -> p x = true -> run (Cls p) s (advance s x t)
| run_seq r1 r2 s s1 s2 :
    run r1 s s1 -> run r2 s1 s2 -> run (Seq r1 r2) s s2
| run_alt_l r1 r2 s s' : run r1 s s' -> run (Alt r1 r2) s s'
| run_alt_r r1 r2 s s' : run r2 s s' -> run (Alt r1 r2) s s'
| run_star_nil g r s : run (Star g r) s s
| run_star_cons g r s s1 s2 :
    run r s s1 -> length (rest s1) < length (rest s) ->
    run (Star g r) s1 s2 -> run (Star g r) s s2
| run_grp i r s s1 : run r s s1 -> run (Grp i r) s (close_group i s s1)
| run_bol ml s : at_bol ml s = true -> run (Bol ml) s s
| run_eol ml s : at_eol ml s = true -> run (Eol ml) s s.

(** The state in which a search at offset [i] of [content] starts. *)
Definition start_state (content : str) (i : nat) : mstate :=
  {| prev := char_before content i; rest := skipn i content; caps := [] |}.

(** Patterns without capture groups. *)
Fixpoint group_free (r : regex) : bool :=
  match r with
  | Seq a b | Alt a b => group_free a && group_free b
  | Star _ a => group_free a
  | Grp _ _ => false
  | _ => true
  end.

(** Patterns without line anchors. *)
Fixpoint anchor_free (r : regex) : bool :=
  match r with
  | Seq a b | Alt a b => anchor_free a && anchor_free b
  | Star _ a | Grp _ a => anchor_free a
  | Bol _ | Eol _ => false
  | _ => true
  end.

(** Every run of [r] consumes a text with property [P]. *)
Definition shape (r : regex) (P : str -> Prop) : Prop :=
  forall s s', run r s s' -> exists w, rest s = w ++ rest s' /\ P w.







(** Two texts clash when they differ at a position both have: neither
    can then be continued to the other. *)
Fixpoint clash (x y : str) : bool :=
  match x, y with
  | c :: x', d :: y' => if Ascii.eqb c d then clash x' y' else true
  | _, _ => false
  end.

(** No proper, non-empty suffix of [n] can stand where [t] starts. *)
Definition no_suffix_starts (n t : str) : bool :=
  forallb (fun i => clash (skipn i n) t) (seq 1 (length n - 1)).





(** What step two of [updateNextConfig] inserts, and a package entry that
    step one writes. *)
Definition webpack_insert : str := NextjsFramework.webpackConfig ++ nl.

Definition externals_insert : str :=
  lit "config.externals.push('pino-pretty', 'lokijs', 'encoding');
    ".

Definition PACKAGE_ENTRY : str := lit "'@solana/wallet-adapter-base'".

(** Step one of [updateNextConfig] finds its anchor word in the content
    and the pattern of that anchor does not match. *)
Definition anchor_unmatched (content : str) : Prop :=
  (includes (lit "transpilePackages") content = true
   /\ exec NextjsFramework.TRANSPILE_RE content = None)
  \/ (includes (lit "transpilePackages") content = false
      /\ includes (lit "module.exports") content = true
      /\ exec NextjsFramework.MODULE_EXPORTS_RE content = None)
  \/ (includes (lit "transpilePackages") content = false
      /\ includes (lit "module.exports") content = false
      /\ includes (lit "export default") content = true
      /\ exec NextjsFramework.EXPORT_DEFAULT_RE content = None).

(** The first group of [WEBPACK_RE]. *)
Definition webpack_head : regex :=
  seqs [L "webpack"; ws_star; Chr ":"%char; ws_star;
        Chr "("%char; ws_star; L "config"; ws_star;
        Chr ")"%char; ws_star; L "=>"; ws_star; Chr "{"%char;
        Star true (not_chr "}"%char)].






(** What a placeholder with the text [key] between its braces is replaced
    by: the value of the trimmed path, or the placeholder itself. *)
Definition placeholder_value (rt : runtime) (key : str) (context : jsval)
  : result str :=
  bind (TemplateEngine.getValueFromContext rt (trim key) context)
    (fun value =>
       match value with
       | Some value => Ok value
       | None => Ok (lit "{{" ++ key ++ lit "}}")
       end).

(** A text that can stand between the braces of a placeholder: no closing
    brace and no line terminator. *)
Definition placeholder_key (key : str) : bool :=
  forallb (fun c => negb (Ascii.eqb c "}"%char) && negb (is_line_term c)) key.

(** A match moved [d] code units to the right. *)
Definition shift (d : nat) (res : mresult) : mresult :=
  {| index := index res + d; mlen := mlen res; groups := groups res |}.

(** [TEMPLATE_PLACEHOLDER_REGEX] behind its two opening braces. *)
Definition PLACEHOLDER_BODY : regex :=
  Seq (Grp 1 (Star false dot)) (Seq (Chr "}"%char) (Chr "}"%char)).

(** The first segment of the path of a placeholder. *)
Definition head_segment (key : str) : str :=
  hd [] (split_on "."%char (trim key)).

(** The block markers that the templates of the repository contain. *)
Definition BLOCK_DIRECTIVES : list str :=
  [ lit "#if projectInfo.hasTypeScript"; lit "else"; lit "/if";
    lit "#each solanaConfig.wallets"; lit "#if @first"; lit ".";
    lit "/each"; lit "#if solanaConfig.includeMainnet";
    lit "#if solanaConfig.includeTestnet";
    lit "#if solanaConfig.includeDevnet" ].

(** The decimal digits of a number, as a version string writes them. *)
Definition decimal (n : nat) : str :=
  lit (NilEmpty.string_of_uint (Nat.to_uint n)).

(** The text is empty or begins with a code unit that [p] rejects. *)
Definition stops (p : ascii -> bool) (t : str) : bool :=
  match t with
  | [] => true
  | c :: _ => negb (p c)
  end.

(** The members of [projectInfo] that the templates ask for and
    [detectProject] does not set. *)
Definition METADATA_KEYS : list str :=
  [ lit "name"; lit "description"; lit "url"; lit "icon"; lit "themeMode";
    lit "analytics"; lit "accentColor"; lit "projectId" ].

End Spec.

(** ** More of JavaScript's values *)

Module JsObject.
Import JsString JsValue.

(** [ToBoolean] *)
Definition to_boolean (v : jsval) : bool :=
  match v with
  | JUndefined | JNull => false
  | JBool b => b
  | JNum z => negb (Z.eqb z 0)
  | JReal text => negb (str_eqb text (lit "NaN"))
  | JStr s => match s with [] => false | _ :: _ => true end
  | JObj _ | JArr _ | JBuiltin _ => true
  end.

(** [a || b] *)
Definition js_or (a b : jsval) : jsval := if to_boolean a then a else b.

(** [v?.k] *)
Definition opt_get (v : jsval) (k : str) : jsval :=
  if is_nullish v then JUndefined else member v k.

Fixpoint has_field (k : str) (fields : list (str * jsval)) : bool :=
  match fields with
  | [] => false
  | (k', _) :: fs => str_eqb k k' || has_field k fs
  end.

(** [{...o, k: v}] on the fields of [o]: a property that is there gets
    the new value and keeps its place, a new one goes to the end. *)
Fixpoint set_field (k : str) (v : jsval) (fields : list (str * jsval))
  : list (str * jsval) :=
  match fields with
  | [] => [(k, v)]
  | (k', v') :: fs =>
      if str_eqb k k' then (k, v) :: fs else (k', v') :: set_field k v fs
  end.

(** The own enumerable properties that [{...v}] copies: those of an
    object; nothing for [undefined], [null], a boolean or a number. *)
Definition spread (v : jsval) : list (str * jsval) :=
  match v with
  | JObj fields => fields
  | JArr items =>
      map (fun p => (num_to_str (Z.of_nat (fst p)), snd p))
        (combine (seq 0 (length items)) items)
  | JStr s =>
      map (fun p => (num_to_str (Z.of_nat (fst p)), JStr [snd p]))
        (combine (seq 0 (length s)) s)
  | _ => []
  end.

(** [{...a, ...b}] *)
Definition spread2 (a b : jsval) : list (str * jsval) :=
  fold_left (fun acc kv => set_field (fst kv) (snd kv) acc) (spread b)
    (spread a).

Definition opt_field (k : str) (v : option jsval) : list (str * jsval) :=
  match v with Some x => [(k, x)] | None => [] end.

End JsObject.

(** ** src/types/index.ts *)

Module Types.
Import JsString JsValue JsObject.

Inductive Framework : Type := REACT | NEXTJS | VUE | UNKNOWN.

Definition Framework_value (f : Framework) : str :=
  match f with
  | REACT => lit "react"
  | NEXTJS => lit "nextjs"
  | VUE => lit "vue"
  | UNKNOWN => lit "unknown"
  end.

Inductive PackageManager : Type := NPM | YARN | PNPM.

Definition PackageManager_value (p : PackageManager) : str :=
  match p with
  | NPM => lit "npm"
  | YARN => lit "yarn"
  | PNPM => lit "pnpm"
  end.

Record ProjectInfo := {
  framework : Framework;
  packageManager : PackageManager;
  hasTypeScript : bool;
  projectRoot : str;
  srcDir : str;
  packageJson : jsval;
  isNext13OrLater : bool;
  isAppRouter : bool;
  name : option str;
  description : option str;
  url : option str;
  icon : option str
}.

Definition opt_str (v : option str) : option jsval := option_map JStr v.

(** The object a [ProjectInfo] is at run time. *)
Definition ProjectInfo_fields (p : ProjectInfo) : list (str * jsval) :=
  [ (lit "framework", JStr (Framework_value (framework p)));
    (lit "packageManager", JStr (PackageManager_value (packageManager p)));
    (lit "hasTypeScript", JBool (hasTypeScript p));
    (lit "projectRoot", JStr (projectRoot p));
    (lit "srcDir", JStr (srcDir p));
    (lit "packageJson", packageJson p);
    (lit "isNext13OrLater", JBool (isNext13OrLater p));
    (lit "isAppRouter", JBool (isAppRouter p)) ]
  ++ opt_field (lit "name") (opt_str (name p))
  ++ opt_field (lit "description") (opt_str (description p))
  ++ opt_field (lit "url") (opt_str (url p))
  ++ opt_field (lit "icon") (opt_str (icon p)).

Definition ProjectInfo_value (p : ProjectInfo) : jsval :=
  JObj (ProjectInfo_fields p).

Record Dependency := {
  dep_name : str;
  dep_version : str;
  isDev : option bool
}.

(** The object a [SolanaConfig] is at run time; [appKitConfig] is its
    optional member of that name. *)
Definition SolanaConfig_fields (c : ConfigManager.SolanaConfig)
  (appKitConfig : option jsval) : list (str * jsval) :=
  [ (lit "network",
     JStr (ConfigManager.network_name (ConfigManager.network c)));
    (lit "wallets", JArr (map JStr (ConfigManager.wallets c)));
    (lit "features",
     JObj [ (lit "transactions",
             JBool (ConfigManager.transactions (ConfigManager.features c)));
            (lit "tokens",
             JBool (ConfigManager.tokens (ConfigManager.features c)));
            (lit "nfts",
             JBool (ConfigManager.nfts (ConfigManager.features c))) ]) ]
  ++ opt_field (lit "useAppKit") (option_map JBool (ConfigManager.useAppKit c))
  ++ opt_field (lit "projectId") (opt_str (ConfigManager.projectId c))
  ++ opt_field (lit "appKitConfig") appKitConfig.

Definition SolanaConfig_value (c : ConfigManager.SolanaConfig)
  (appKitConfig : option jsval) : jsval :=
  JObj (SolanaConfig_fields c appKitConfig).

End Types.

(** ** The template contexts of the framework modules *)

Module InitContext.
Import JsString JsValue JsObject Types.

(** The [context] of [NextjsFramework.init]. *)
Definition nextjs (projectInfo : ProjectInfo) (solanaConfig : jsval)
  : list (str * jsval) :=
  [ (lit "projectInfo", ProjectInfo_value projectInfo);
    (lit "solanaConfig", solanaConfig);
    (lit "typescriptExtension",
     JStr (if hasTypeScript projectInfo then lit "tsx" else lit "jsx"));
    (lit "javascriptExtension",
     JStr (if hasTypeScript projectInfo then lit "ts" else lit "js"));
    (lit "isAppRouter", JBool (isAppRouter projectInfo)) ].

(** The [context] of [ReactFramework.init]. *)
Definition react (projectInfo : ProjectInfo) (solanaConfig : jsval)
  : list (str * jsval) :=
  [ (lit "projectInfo", ProjectInfo_value projectInfo);
    (lit "solanaConfig", solanaConfig);
    (lit "typescriptExtension",
     JStr (if hasTypeScript projectInfo then lit "tsx" else lit "jsx"));
    (lit "javascriptExtension",
     JStr (if hasTypeScript projectInfo then lit "ts" else lit "js")) ].

(** The [context] of [VueFramework.init]. *)
Definition vue (projectInfo : ProjectInfo) (solanaConfig : jsval)
  : list (str * jsval) :=
  [ (lit "projectInfo", ProjectInfo_value projectInfo);
    (lit "solanaConfig", solanaConfig);
    (lit "typescriptExtension",
     JStr (if hasTypeScript projectInfo then lit "ts" else lit "js")) ].

(** [x || d] for an optional string member. *)
Definition str_or (x : option str) (d : str) : jsval :=
  match x with
  | Some (c :: s) => JStr (c :: s)
  | _ => JStr d
  end.

(** The [appKitContext] of [NextjsFramework.generateAppKitIntegration]. *)
Definition appKit (projectInfo : ProjectInfo)
  (solanaConfig : ConfigManager.SolanaConfig) (appKitConfig : option jsval)
  : list (str * jsval) :=
  let config := SolanaConfig_value solanaConfig appKitConfig in
  let akc := member config (lit "appKitConfig") in
  let context := nextjs projectInfo config in
  let projectInfo' :=
    set_field (lit "projectId")
      (str_or (ConfigManager.projectId solanaConfig) (lit "demo-project-123"))
    (set_field (lit "accentColor")
      (js_or (opt_get akc (lit "accentColor")) (JStr (lit "#3b82f6")))
    (set_field (lit "analytics")
      (js_or (opt_get akc (lit "analytics")) (JBool false))
    (set_field (lit "themeMode")
      (js_or (opt_get akc (lit "themeMode")) (JStr (lit "dark")))
    (set_field (lit "icon")
      (str_or (icon projectInfo) (lit "https://example.com/icon.png"))
    (set_field (lit "url")
      (str_or (url projectInfo) (lit "https://example.com"))
    (set_field (lit "description")
      (str_or (description projectInfo)
         (lit "A Next.js app with Solana integration"))
    (set_field (lit "name") (str_or (name projectInfo) (lit "Solana App"))
       (ProjectInfo_fields projectInfo)))))))) in
  let solanaConfig' :=
    set_field (lit "wallets")
      (JArr [JStr (lit "Phantom"); JStr (lit "Solflare")])
    (set_field (lit "includeDevnet") (JBool true)
    (set_field (lit "includeTestnet") (JBool true)
    (set_field (lit "includeMainnet") (JBool true)
       (SolanaConfig_fields solanaConfig appKitConfig)))) in
  set_field (lit "solanaConfig") (JObj solanaConfig')
    (set_field (lit "projectInfo") (JObj projectInfo') context).

End InitContext.

(** ** Numbers from strings, and what a function throws *)

Module JsNumber.
Import JsString.
Export JsError.

Fixpoint digits_prefix (s : str) : str :=
  match s with
  | c :: t => if is_digit c then c :: digits_prefix t else []
  | [] => []
  end.

Fixpoint digits_value (acc : nat) (ds : str) : nat :=
  match ds with
  | [] => acc
  | c :: t => digits_value (10 * acc + digit_val c) t
  end.

(** [parseInt(s, 10)]: leading white space is skipped, a sign is read,
    and the longest run of decimal digits that follows is the number;
    [None] is [NaN], the result when there is no digit.  The result of
    the program is a double; it is only ever compared with 13 or 19, and
    rounding to a double does not change the outcome of that. *)
Definition parseInt10 (s : str) : option Z :=
  let s1 := trimStart s in
  let '(negative, s2) :=
    match s1 with
    | c :: t =>
        if Ascii.eqb c "-"%char then (true, t)
        else if Ascii.eqb c "+"%char then (false, t)
        else (false, s1)
    | [] => (false, [])
    end in
  match digits_prefix s2 with
  | [] => None
  | ds =>
      let n := Z.of_nat (digits_value 0 ds) in
      Some (if negative then (- n)%Z else n)
  end.

(** [x >= n], false for [NaN]. *)
Definition ge (x : option Z) (n : Z) : bool :=
  match x with Some z => (n <=? z)%Z | None => false end.

End JsNumber.

(** ** src/core/framework-resolver.ts *)

Module FrameworkResolver.
Import JsString JsNumber Types.

Inductive FrameworkModule : Type := ReactModule | NextjsModule | VueModule.

(** The [switch] of [getFrameworkModule] on the value of
    [projectInfo.framework]. *)
Definition module_of (framework : str) : result FrameworkModule :=
  if str_eqb framework (Framework_value REACT) then Ok ReactModule
  else if str_eqb framework (Framework_value NEXTJS) then Ok NextjsModule
  else if str_eqb framework (Framework_value VUE) then Ok VueModule
  else if str_eqb framework (Framework_value UNKNOWN) then
    Throw (JsError
             (lit "Unknown framework. Cannot proceed with integration."))
  else Throw (JsError (lit "Unsupported framework: " ++ framework)).

Definition getFrameworkModule (projectInfo : ProjectInfo)
  : result FrameworkModule :=
  module_of (Framework_value (framework projectInfo)).

Definition getSupportedFrameworks : list str :=
  [Framework_value REACT; Framework_value NEXTJS; Framework_value VUE].

Definition isFrameworkSupported (framework : str) : bool :=
  existsb (str_eqb framework) getSupportedFrameworks.

End FrameworkResolver.

(** ** src/utils/package-manager.ts *)

Module PackageManagerUtils.
Import JsString JsNumber Types Effects.

(** The three lock files, as [fs.pathExists] answers for them. *)
Record LockFiles := {
  yarn_lock : bool;
  pnpm_lock : bool;
  package_lock : bool
}.

Definition detectPackageManager (locks : LockFiles) : PackageManager :=
  if yarn_lock locks then YARN
  else if pnpm_lock locks then PNPM
  else if package_lock locks then NPM
  else NPM.

Definition getInstallCommand (packageManager : PackageManager) : str :=
  match packageManager with
  | YARN => lit "yarn add"
  | PNPM => lit "pnpm add"
  | NPM => lit "npm install"
  end.

Definition getDevInstallCommand (packageManager : PackageManager) : str :=
  match packageManager with
  | YARN => lit "yarn add -D"
  | PNPM => lit "pnpm add -D"
  | NPM => lit "npm install --save-dev"
  end.

Definition is_dev (dep : Dependency) : bool :=
  match isDev dep with Some true => true | _ => false end.

(** [`${dep.name}@${dep.version}`] *)
Definition with_version (dep : Dependency) : str :=
  dep_name dep ++ lit "@" ++ dep_version dep.

(** What a run of [installDependencies] did: the commands it handed to
    [exec], in order, what it logged, and what it threw, if it did. *)
Record install_run := {
  commands : list str;
  install_log : list log_entry;
  install_thrown : option thrown
}.

(** One of the two steps: nothing for an empty list, else the command,
    which [run] lets succeed or fail. *)
Definition install_step (run : str -> bool) (command : str)
  (deps : list Dependency) (kind Kind : str) : install_run :=
  match deps with
  | [] => {| commands := []; install_log := []; install_thrown := None |}
  | _ :: _ =>
      let installCmd :=
        command ++ lit " " ++ join (lit " ") (map with_version deps) in
      let before :=
        [ (Info, lit "Installing " ++ kind ++ lit " dependencies...");
          (Debug, lit "Running command: " ++ installCmd) ] in
      if run installCmd then
        {| commands := [installCmd];
           install_log :=
             before
             ++ [(Success, Kind ++ lit " dependencies installed successfully")];
           install_thrown := None |}
      else
        {| commands := [installCmd];
           install_log :=
             before
             ++ [(Error, lit "Failed to install " ++ kind ++ lit " dependencies")];
           install_thrown :=
             Some (JsError (lit "Dependency installation failed")) |}
  end.

Definition installDependencies (run : str -> bool)
  (dependencies : list Dependency) (packageManager : PackageManager)
  : install_run :=
  let prodDeps := filter (fun dep => negb (is_dev dep)) dependencies in
  let devDeps := filter is_dev dependencies in
  let prod :=
    install_step run (getInstallCommand packageManager) prodDeps
      (lit "production") (lit "Production") in
  match install_thrown prod with
  | Some _ => prod
  | None =>
      let dev :=
        install_step run (getDevInstallCommand packageManager) devDeps
          (lit "development") (lit "Development") in
      {| commands := commands prod ++ commands dev;
         install_log := install_log prod ++ install_log dev;
         install_thrown := install_thrown dev |}
  end.

End PackageManagerUtils.

(** ** src/core/dependency-manager.ts *)

Module DependencyManager.
Import JsString JsValue JsObject JsNumber Types Effects.

Definition dep (n v : string) : Dependency :=
  {| dep_name := lit n; dep_version := lit v; isDev := None |}.

Definition dev_dep (n v : string) : Dependency :=
  {| dep_name := lit n; dep_version := lit v; isDev := Some true |}.

Definition common_dependencies : list Dependency :=
  [ dep "@solana/web3.js" "^1.87.3";
    dep "@solana/wallet-adapter-base" "^0.9.23";
    dep "@solana/wallet-adapter-react" "^0.15.35";
    dep "@solana/wallet-adapter-wallets" "^0.19.23" ].

Definition framework_dependencies (f : Framework) : list Dependency :=
  match f with
  | REACT => [dep "@solana/wallet-adapter-react-ui" "^0.9.35"]
  | NEXTJS =>
      [ dep "@solana/wallet-adapter-react-ui" "^0.9.35";
        dev_dep "next-transpile-modules" "^10.0.1" ]
  | VUE =>
      [ dep "@solana/wallet-adapter-vue" "^0.3.4";
        dep "@solana/wallet-adapter-vue-ui" "^0.3.4" ]
  | UNKNOWN => []
  end.

(** [projectInfo.packageJson.solanaConfig?.features?.<name>] *)
Definition feature (packageJson : jsval) (name : str) : bool :=
  to_boolean
    (opt_get (opt_get (member packageJson (lit "solanaConfig")) (lit "features"))
       name).

(** [getDependencies]; reading a member of a [packageJson] that is
    [null] or [undefined] throws. *)
Definition getDependencies (projectInfo : ProjectInfo)
  : result (list Dependency) :=
  let pj := packageJson projectInfo in
  if is_nullish pj then Throw JsTypeError
  else
    Ok (common_dependencies
        ++ framework_dependencies (framework projectInfo)
        ++ (if feature pj (lit "tokens")
            then [dep "@solana/spl-token" "^0.3.8"] else [])
        ++ (if feature pj (lit "nfts")
            then [dep "@metaplex-foundation/js" "^0.19.4"] else [])).

(** The warning of the [default] branch of [getDependencies]. *)
Definition getDependencies_log (projectInfo : ProjectInfo) : list log_entry :=
  match framework projectInfo with
  | UNKNOWN =>
      [(Warn, lit "Unknown framework, adding only core Solana dependencies")]
  | _ => []
  end.

Definition installDependencies (run : str -> bool) (projectInfo : ProjectInfo)
  : PackageManagerUtils.install_run :=
  let info := (Info, lit "Installing Solana dependencies...") in
  match getDependencies projectInfo with
  | Throw e =>
      {| PackageManagerUtils.commands := [];
         PackageManagerUtils.install_log :=
           info :: getDependencies_log projectInfo;
         PackageManagerUtils.install_thrown := Some e |}
  | Ok dependencies =>
      let r :=
        PackageManagerUtils.installDependencies run dependencies
          (packageManager projectInfo) in
      match PackageManagerUtils.install_thrown r with
      | None =>
          {| PackageManagerUtils.commands := PackageManagerUtils.commands r;
             PackageManagerUtils.install_log :=
               info :: getDependencies_log projectInfo
               ++ PackageManagerUtils.install_log r
               ++ [(Success, lit "Solana dependencies installed successfully")];
             PackageManagerUtils.install_thrown := None |}
      | Some _ =>
          {| PackageManagerUtils.commands := PackageManagerUtils.commands r;
             PackageManagerUtils.install_log :=
               info :: getDependencies_log projectInfo
               ++ PackageManagerUtils.install_log r
               ++ [(Error, lit "Failed to install Solana dependencies")];
             PackageManagerUtils.install_thrown :=
               Some (JsError (lit "Failed to install dependencies")) |}
      end
  end.

End DependencyManager.

(** ** src/core/project-detector.ts *)

Module ProjectDetector.
Import JsString Regex JsValue JsObject JsNumber Types.

(** What [fs.readJson] makes of [package.json]. *)
Inductive json_file : Type :=
| Missing
| Unreadable
| Parsed (v : jsval).

(** What [detectProject] sees of the project directory: one member for
    each question it asks the file system.  A list of files is the answer
    of [glob.sync], [None] when it throws. *)
Record ProjectFiles := {
  root : str;
  root_exists : bool;
  package_json : json_file;
  locks : PackageManagerUtils.LockFiles;
  tsconfig_json : bool;
  src_dir : bool;
  app_dir : bool;
  pages_dir : bool;
  jsx_files : option (list str);
  tsx_files : option (list str);
  vue_files : option (list str);
  ts_files : option (list str)
}.

(** [{...packageJson.dependencies, ...packageJson.devDependencies}] *)
Definition dependencies (packageJson : jsval) : list (str * jsval) :=
  spread2 (member packageJson (lit "dependencies"))
    (member packageJson (lit "devDependencies")).

Definition some_file (a b : option (list str)) : bool :=
  match a, b with
  | Some x, Some y => (0 <? length x) || (0 <? length y)
  | _, _ => false
  end.

Definition detectFramework (files : ProjectFiles) (packageJson : jsval)
  : result Framework :=
  if is_nullish packageJson then Throw JsTypeError
  else
    let deps := dependencies packageJson in
    if to_boolean (lookup (lit "next") deps) then Ok NEXTJS
    else if to_boolean (lookup (lit "react") deps)
            && to_boolean (lookup (lit "react-dom") deps)
            && some_file (jsx_files files) (tsx_files files)
    then Ok REACT
    else if to_boolean (lookup (lit "vue") deps)
            && match vue_files files with
               | Some v => 0 <? length v
               | None => false
               end
    then Ok VUE
    else Ok UNKNOWN.

Definition hasTypeScript (files : ProjectFiles) (packageJson : jsval)
  : result bool :=
  if is_nullish packageJson then Throw JsTypeError
  else
    let deps := dependencies packageJson in
    Ok (to_boolean (lookup (lit "typescript") deps)
        && tsconfig_json files
        && some_file (ts_files files) (tsx_files files)).

Definition findSrcDir (files : ProjectFiles) : str :=
  if src_dir files then lit "src"
  else if app_dir files then lit "app"
  else if pages_dir files then lit "pages"
  else lit ".".

(** [/[^0-9.]/g] *)
Definition NOT_VERSION_CHAR : regex :=
  Cls (fun c => negb (is_digit c || Ascii.eqb c "."%char)).

(** [parseInt(v.replace(/[^0-9.]/g, "").split(".")[0], 10)] *)
Definition next_major (version : str) : option Z :=
  let nextVersion := replace_all_fn NOT_VERSION_CHAR (fun _ => []) version in
  parseInt10 (hd [] (split_on "."%char nextVersion)).

(** [isNext13OrLater]; the [replace] of a [next] entry that is not a
    string throws. *)
Definition isNext13OrLater (packageJson : jsval) : result bool :=
  if is_nullish packageJson then Throw JsTypeError
  else
    let next := lookup (lit "next") (dependencies packageJson) in
    if to_boolean next then
      match next with
      | JStr version => Ok (ge (next_major version) 13)
      | _ => Throw JsTypeError
      end
    else Ok false.

Definition isAppRouter (files : ProjectFiles) : bool := app_dir files.

Definition detectProject (files : ProjectFiles) : result ProjectInfo :=
  if negb (root_exists files) then
    Throw (JsError (lit "Project directory does not exist: " ++ root files))
  else
    match package_json files with
    | Missing =>
        Throw (JsError (lit "No package.json found in " ++ root files))
    | Unreadable => Throw JsLibraryError
    | Parsed packageJson =>
        let packageManager :=
          PackageManagerUtils.detectPackageManager (locks files) in
        bind (detectFramework files packageJson) (fun framework =>
        bind (hasTypeScript files packageJson) (fun hasTypeScript =>
        let srcDir := findSrcDir files in
        bind (isNext13OrLater packageJson) (fun isNext13OrLater =>
        let isAppRouter :=
          match framework with
          | NEXTJS => isAppRouter files
          | _ => false
          end in
        Ok {| Types.framework := framework;
              Types.packageManager := packageManager;
              Types.hasTypeScript := hasTypeScript;
              projectRoot := root files;
              Types.srcDir := srcDir;
              Types.packageJson := packageJson;
              Types.isNext13OrLater := isNext13OrLater;
              Types.isAppRouter := isAppRouter;
              name := None; description := None; url := None;
              icon := None |})))
    end.

End ProjectDetector.

(** ** The check of the React version in src/commands *)

Module ReactCompatibility.
Import JsString Regex JsValue JsObject JsNumber Types.

(** [/[\d\.]+/] *)
Definition version_char (c : ascii) : bool :=
  is_digit c || Ascii.eqb c "."%char.

Definition VERSION_RE : regex := Plus true (Cls version_char).

(** [parseInt(reactVersion.match(/[\d\.]+/)[0].split(".")[0], 10)];
    [None] when there is no match or no number. *)
Definition react_major (reactVersion : str) : option Z :=
  match exec VERSION_RE reactVersion with
  | None => None
  | Some versionMatch =>
      parseInt10
        (hd [] (split_on "."%char (matched reactVersion versionMatch)))
  end.

(** The test that the three copies of [checkReactCompatibility] share:
    [Ok true] when the warning for React 19 is due.  The [match] of a
    [react] entry that is not a string throws. *)
Definition react19 (packageJson : jsval) : result bool :=
  if is_nullish packageJson then Throw JsTypeError
  else
    let react := opt_get (member packageJson (lit "dependencies")) (lit "react") in
    if to_boolean react then
      match react with
      | JStr reactVersion => Ok (ge (react_major reactVersion) 19)
      | _ => Throw JsTypeError
      end
    else Ok false.

End ReactCompatibility.

(** ** src/commands/init.ts *)

Module InitCommand.
Import JsString JsValue JsObject JsNumber Types.

(** The answers of the five questions of [promptForConfig]. *)
Record Answers := {
  a_network : ConfigManager.Network;
  a_wallets : list str;
  transactionsFeature : bool;
  tokensFeature : bool;
  nftsFeature : bool
}.

(** [promptForConfig]: the configuration is made of the answers alone. *)
Definition promptForConfig (defaultConfig : ConfigManager.SolanaConfig)
  (answers : Answers) : ConfigManager.SolanaConfig :=
  {| ConfigManager.network := a_network answers;
     ConfigManager.wallets := a_wallets answers;
     ConfigManager.features :=
       {| ConfigManager.transactions := transactionsFeature answers;
          ConfigManager.tokens := tokensFeature answers;
          ConfigManager.nfts := nftsFeature answers |};
     ConfigManager.useAppKit := None;
     ConfigManager.projectId := None |}.

(** [checkReactCompatibility]: [Ok true] when it logs the warning for
    React 19. *)
Definition checkReactCompatibility (projectInfo : ProjectInfo)
  : result bool :=
  match framework projectInfo with
  | NEXTJS | REACT => ReactCompatibility.react19 (packageJson projectInfo)
  | VUE | UNKNOWN => Ok false
  end.

End InitCommand.

(** ** The AppKit files of src/frameworks/nextjs/index.ts *)

Module NextjsAppKit.
Import JsString Effects.

(** [NextjsFramework.createEnvFile]: the file is written whether it
    exists or not. *)
Definition createEnvFile (solanaConfig : ConfigManager.SolanaConfig)
  (fs : ConfigManager.env_files) : ConfigManager.env_files * list log_entry :=
  let envContent :=
    lit "NEXT_PUBLIC_PROJECT_ID="
    ++ ConfigManager.projectId_or_empty solanaConfig in
  ({| ConfigManager.env_local := Some envContent;
      ConfigManager.env_example := ConfigManager.env_example fs |},
   [(Debug, lit "Created .env.local with AppKit configuration")]).

End NextjsAppKit.

(** ** The steps of [NextjsFramework.init] *)

Module NextjsInit.
Import JsString.

Inductive step : Type :=
| generateAppKitIntegration
| generateWalletAdapter
| generateTransactionUtils
| generateTokenUtils
| generateNftUtils
| generateExampleComponent
| updateNextConfig
| updateAppEntryPoint.

(** The calls that [init] makes, in order, when none of them throws. *)
Definition init (solanaConfig : ConfigManager.SolanaConfig) : list step :=
  (if ConfigManager.truthy (ConfigManager.useAppKit solanaConfig)
   then [generateAppKitIntegration] else [generateWalletAdapter])
  ++ (if ConfigManager.transactions (ConfigManager.features solanaConfig)
      then [generateTransactionUtils] else [])
  ++ (if ConfigManager.tokens (ConfigManager.features solanaConfig)
      then [generateTokenUtils] else [])
  ++ (if ConfigManager.nfts (ConfigManager.features solanaConfig)
      then [generateNftUtils] else [])
  ++ [generateExampleComponent; updateNextConfig; updateAppEntryPoint].

End NextjsInit.

(** ** src/commands/update.ts *)

Module UpdateCommand.
Import JsString Regex Effects.

(** *** The test for changes in [execute]

    [execute] keeps [originalConfig = { ...config }], a copy of the
    members of the configuration: the copy and the configuration refer to
    one and the same [features] object.  The model gives that object an
    address in a store. *)

Definition store : Type := nat -> ConfigManager.Features.

Definition put (h : store) (a : nat) (f : ConfigManager.Features) : store :=
  fun x => if x =? a then f else h x.

Record Config := {
  network : str;
  wallets : list str;
  features : nat
}.

Record Options := {
  o_network : option str;
  o_transactions : bool;
  o_tokens : bool;
  o_nfts : bool;
  yes : bool
}.

Record Answers := {
  a_network : str;
  a_wallets : list str;
  transactionsFeature : bool;
  tokensFeature : bool;
  nftsFeature : bool
}.

(** [if (options.network)]: a string that is not empty. *)
Definition given (x : option str) : option str :=
  match x with
  | Some (c :: s) => Some (c :: s)
  | _ => None
  end.

(** The overrides from the command line: the members of [features] are
    set in place. *)
Definition apply_options (options : Options) (config : Config) (h : store)
  : Config * store :=
  let config1 :=
    match given (o_network options) with
    | Some n =>
        {| network := n; wallets := wallets config;
           features := features config |}
    | None => config
    end in
  let f0 := h (features config) in
  let f1 :=
    if o_transactions options
    then {| ConfigManager.transactions := true;
            ConfigManager.tokens := ConfigManager.tokens f0;
            ConfigManager.nfts := ConfigManager.nfts f0 |}
    else f0 in
  let f2 :=
    if o_tokens options
    then {| ConfigManager.transactions := ConfigManager.transactions f1;
            ConfigManager.tokens := true;
            ConfigManager.nfts := ConfigManager.nfts f1 |}
    else f1 in
  let f3 :=
    if o_nfts options
    then {| ConfigManager.transactions := ConfigManager.transactions f2;
            ConfigManager.tokens := ConfigManager.tokens f2;
            ConfigManager.nfts := true |}
    else f2 in
  (config1, put h (features config) f3).

(** [promptForConfig]: a new configuration with a new [features] object,
    at an address that is not in use. *)
Definition promptForConfig (answers : Answers) (fresh : nat) (h : store)
  : Config * store :=
  ({| network := a_network answers; wallets := a_wallets answers;
      features := fresh |},
   put h fresh
     {| ConfigManager.transactions := transactionsFeature answers;
        ConfigManager.tokens := tokensFeature answers;
        ConfigManager.nfts := nftsFeature answers |}).

(** [hasChanges]; [stringify] is [JSON.stringify] on arrays of
    strings. *)
Definition hasChanges (stringify : list str -> str)
  (originalConfig config : Config) (h : store) : bool :=
  negb (str_eqb (network originalConfig) (network config))
  || negb (str_eqb (stringify (wallets originalConfig))
             (stringify (wallets config)))
  || negb (Bool.eqb (ConfigManager.transactions (h (features originalConfig)))
             (ConfigManager.transactions (h (features config))))
  || negb (Bool.eqb (ConfigManager.tokens (h (features originalConfig)))
             (ConfigManager.tokens (h (features config))))
  || negb (Bool.eqb (ConfigManager.nfts (h (features originalConfig)))
             (ConfigManager.nfts (h (features config)))).

(** [execute] from the configuration that [getConfig] returned to the
    value of [hasChanges]. *)
Definition execute_hasChanges (stringify : list str -> str)
  (options : Options) (answers : Answers) (config : Config) (h : store)
  : bool :=
  let originalConfig :=
    {| network := network config; wallets := wallets config;
       features := features config |} in
  let '(config1, h1) := apply_options options config h in
  let '(config2, h2) :=
    if negb (yes options)
    then promptForConfig answers (S (features config)) h1
    else (config1, h1) in
  hasChanges stringify originalConfig config2 h2.

(** *** The fix for React 19 *)

Definition quote : regex :=
  Cls (fun c => Ascii.eqb c "'"%char || Ascii.eqb c "034"%char).

(** The pattern for the line that exports everything from
    ./SolanaProvider, inside single or double quotes. *)
Definition EXPORT_RE : regex :=
  seqs [L "export * from "; quote; L "./SolanaProvider"; quote].

(** The update of the wallet index in [addReactCompatibilityFix], from
    the point where the index file is read. *)
Definition updateWalletIndex (indexContent : str) : effect :=
  if negb (includes (lit "ClientWalletProvider") indexContent) then
    write
      (replace_tpl EXPORT_RE 0 (lit "export * from './ClientWalletProvider'")
         indexContent)
      [(Success, lit "Updated wallet index to export ClientWalletProvider")]
  else no_write [].

(** The pattern for the import of [{ SolanaProvider }]: white space is
    free around the braces and around [from]; capture 1 is the path between
    the quotes, one or more characters of one line, as many as possible. *)
Definition IMPORT_PROVIDER_RE : regex :=
  seqs [L "import"; ws_star; Chr "{"%char; ws_star; L "SolanaProvider";
        ws_star; Chr "}"%char; ws_star; L "from"; ws_star; quote;
        Grp 1 (Plus true dot); quote].

(** The pattern for a SolanaProvider element, with the [g] flag: capture 1
    is the attributes, every character up to the first [>]; capture 2 is the
    content, as few characters as possible up to the closing tag. *)
Definition PROVIDER_ELEMENT_RE : regex :=
  seqs [L "<SolanaProvider"; Grp 1 (Star true (not_chr ">"%char));
        Chr ">"%char; Grp 2 (Star false any); L "</SolanaProvider>"].

(** [s.replace(r, template)] for a pattern with [n] captures and the [g]
    flag. *)
Definition replace_all_tpl (r : regex) (n : nat) (template : str) (s : str)
  : str :=
  replace_all_fn r
    (fun res =>
       expand {| se_matched := matched s res;
                 se_before := before_match s res;
                 se_after := after_match s res;
                 se_captures := captures_upto n res |} template) s.

(** [updateLayoutForClientComponent], from the point where the layout
    file is read. *)
Definition updateLayoutForClientComponent (content : str) : effect :=
  if includes (lit "SolanaProvider") content
     && negb (includes (lit "ClientWalletProvider") content) then
    let updatedContent :=
      replace_tpl IMPORT_PROVIDER_RE 1
        (lit "import { ClientWalletProvider } from '$1'") content in
    let updatedContent :=
      replace_all_tpl PROVIDER_ELEMENT_RE 2
        (lit "<ClientWalletProvider$1>$2</ClientWalletProvider>")
        updatedContent in
    write updatedContent
      [(Success, lit "Updated layout to use ClientWalletProvider")]
  else no_write [].

End UpdateCommand.

(** ** The checks of src/commands/doctor.ts on the content of a file *)

Module DoctorCommand.
Import JsString Effects.

(** The test of [checkNextjsIntegration] and of [checkCommonIssues] on
    the Next.js config file. *)
Definition nextConfigCheck (content : str) : log_entry :=
  if includes (lit "transpilePackages") content
     && includes (lit "@solana/wallet-adapter") content
  then (Success, lit "Next.js config has correct transpilePackages setup")
  else (Error, lit "Next.js config missing proper transpilePackages setup for Solana packages").

(** The test of [checkNextjsIntegration] on the _app file. *)
Definition appFileCheck (content : str) : log_entry :=
  if includes (lit "SolanaProvider") content
  then (Success, lit "SolanaProvider found in _app file")
  else (Error, lit "SolanaProvider not found in _app file").

(** The test of [checkReactIntegration] on the entry point. *)
Definition entryPointCheck (content : str) : log_entry :=
  if includes (lit "SolanaProvider") content
  then (Success, lit "SolanaProvider found in entry point")
  else (Error, lit "SolanaProvider not found in entry point").

(** The test of [checkVueIntegration] on the main file. *)
Definition mainFileCheck (content : str) : log_entry :=
  if includes (lit "SolanaPlugin") content
     || includes (lit "solana/wallet") content
  then (Success, lit "Solana plugin found in main file")
  else (Error, lit "Solana plugin not found in main file").

(** The test of [checkLayoutForClientComponent]: [true] when it reports
    that the layout uses SolanaProvider instead of
    ClientWalletProvider. *)
Definition layoutUsesSolanaProvider (content : str) : bool :=
  includes (lit "SolanaProvider") content
  && negb (includes (lit "ClientWalletProvider") content).

End DoctorCommand.

(** ** The context that [init] hands to the layout updater *)

Module AppRouterContext.
Import JsString JsValue JsObject.

(** [context.config.useAppKit] as [updateAppRouterEntryPoint] reads it:
    [None] when [context.config] is [undefined] or [null] and the read
    throws, else the truth value of the member. *)
Definition context_config (context : jsval) : option bool :=
  let config := member context (lit "config") in
  if is_nullish config then None
  else Some (to_boolean (member config (lit "useAppKit"))).

End AppRouterContext.

(** * Properties *)

Unset Implicit Arguments.

Import JsString JsError Regex JsValue Effects Spec.

(** ** Facts about strings *)

Section StringFacts.

Lemma startsWith_app (p b : str) : startsWith p (p ++ b) = true.
Proof.
  induction p as [|c p IH]; simpl; [reflexivity|].
  now rewrite Ascii.eqb_refl.
Qed.

Lemma startsWith_split (p s : str) :
  startsWith p s = true -> s = p ++ skipn (length p) s.
Proof.
  revert s; induction p as [|c p IH]; intros s H; simpl in *; [reflexivity|].
  destruct s as [|d s]; [discriminate|].
  apply andb_prop in H as [Hc Hs].
  apply Ascii.eqb_eq in Hc; subst d.
  simpl. f_equal. now apply IH.
Qed.

Lemma find_split (p s : str) (i : nat) :
  find p s = Some i -> s = firstn i s ++ p ++ skipn (i + length p) s.
Proof.
  revert i; induction s as [|c s IH]; intros i H.
  - simpl in H. destruct (startsWith p []) eqn:E; [|discriminate].
    injection H as <-. simpl. now apply startsWith_split in E.
  - simpl in H. destruct (startsWith p (c :: s)) eqn:E.
    + injection H as <-. simpl firstn. simpl "++" at 1.
      now apply startsWith_split in E.
    + destruct (find p s) as [j|] eqn:F; [|discriminate].
      simpl in H. injection H as <-. simpl. f_equal. now apply IH.
Qed.

Lemma includes_here (p b : str) : includes p (p ++ b) = true.
Proof.
  unfold includes. destruct b as [|c b], p as [|d p]; simpl; try reflexivity.
  - rewrite Ascii.eqb_refl. simpl.
    change (p ++ []) with (p ++ []). now rewrite (startsWith_app p []).
  - rewrite Ascii.eqb_refl. simpl. now rewrite (startsWith_app p (c :: b)).
Qed.

Lemma includes_app_r (p a b : str) :
  includes p b = true -> includes p (a ++ b) = true.
Proof.
  intros H. induction a as [|c a IH]; [exact H|].
  unfold includes in *. simpl.
  destruct (startsWith p (c :: a ++ b)); [reflexivity|].
  destruct (find p (a ++ b)); [reflexivity|discriminate].
Qed.

Lemma startsWith_app_l (p a b : str) :
  startsWith p a = true -> startsWith p (a ++ b) = true.
Proof.
  revert a; induction p as [|c p IH]; intros a H; [reflexivity|].
  destruct a as [|d a]; [discriminate|]. simpl in *.
  apply andb_prop in H as [-> H]. simpl. now apply IH.
Qed.

Lemma includes_app_l (p a b : str) :
  includes p a = true -> includes p (a ++ b) = true.
Proof.
  unfold includes. induction a as [|c a IH]; intros H.
  - simpl in H. destruct (startsWith p []) eqn:E; [|discriminate].
    destruct p; [|discriminate]. now destruct b.
  - simpl in H. simpl.
    destruct (startsWith p (c :: a)) eqn:E.
    + change (c :: a ++ b) with ((c :: a) ++ b).
      now rewrite (startsWith_app_l _ _ b E).
    + destruct (startsWith p (c :: a ++ b)); [reflexivity|].
      destruct (find p a); [|discriminate].
      specialize (IH eq_refl). now destruct (find p (a ++ b)).
Qed.

Lemma includes_mid (p a b : str) : includes p (a ++ p ++ b) = true.
Proof. apply includes_app_r, includes_here. Qed.

Lemma includes_occurs (p s : str) : includes p s = true <-> occurs_in p s.
Proof.
  split.
  - unfold includes. destruct (find p s) as [i|] eqn:F; [|discriminate].
    intros _. apply find_split in F.
    now exists (firstn i s), (skipn (i + length p) s).
  - intros (a & b & ->). apply includes_mid.
Qed.

End StringFacts.

(** ** Facts about matching and replacing *)

Section RegexFacts.

Lemma match_decomp (s : str) (res : mresult) :
  s = before_match s res ++ matched s res ++ after_match s res.
Proof.
  unfold before_match, matched, after_match.
  now rewrite firstn_skipn, firstn_skipn.
Qed.

Lemma exec_from_index (r : regex) (s : str) :
  forall p i res, exec_from r p s i = Some res -> i <= index res.
Proof.
  induction s as [|c s IH]; intros p i res H; simpl in H.
  - destruct (m r Some _); [|discriminate]. injection H as <-. simpl. lia.
  - destruct (m r Some _).
    + injection H as <-. simpl. lia.
    + apply IH in H. lia.
Qed.

Lemma exec_at_index (r : regex) (s : str) (from : nat) (res : mresult) :
  exec_at r s from = Some res -> from <= index res.
Proof.
  unfold exec_at. destruct (length s <? from); [discriminate|].
  apply exec_from_index.
Qed.

Lemma chain_weaken (ms : list mresult) (p q : nat) :
  p <= q -> chain q ms -> chain p ms.
Proof. destruct ms; simpl; [trivial|]. intros ? [? ?]. split; [lia|assumption]. Qed.

Lemma exec_all_chain (r : regex) (s : str) (fuel : nat) :
  forall from, chain from (exec_all fuel r s from).
Proof.
  induction fuel as [|fuel IH]; intros from; simpl; [trivial|].
  destruct (exec_at r s from) as [res|] eqn:E; simpl; [|trivial].
  split; [now apply exec_at_index in E|].
  destruct (mlen res =? 0) eqn:Z.
  - apply Nat.eqb_eq in Z. rewrite Z.
    apply chain_weaken with (q := index res + 1); [lia|apply IH].
  - apply IH.
Qed.

Lemma skipn_skipn_le (s : str) (p q : nat) :
  p <= q -> skipn q s = skipn (q - p) (skipn p s).
Proof.
  intros H. rewrite skipn_skipn. f_equal. lia.
Qed.

(** Replacing every match by its own text gives the input back. *)
Lemma splice_same (s : str) (f : mresult -> str) (ms : list mresult) :
  forall pos,
    chain pos ms ->
    (forall res, In res ms -> f res = matched s res) ->
    splice s pos (map (fun res => (res, f res)) ms) = skipn pos s.
Proof.
  induction ms as [|res ms IH]; intros pos Hc Hf; simpl; [reflexivity|].
  destruct Hc as [Hle Hc].
  rewrite (IH _ Hc) by (intros; apply Hf; now right).
  rewrite (Hf res) by now left.
  unfold matched.
  rewrite (skipn_skipn_le s _ _ Hle).
  replace (skipn (index res + mlen res) s)
    with (skipn (mlen res) (skipn (index res - pos) (skipn pos s))).
  - now rewrite firstn_skipn, firstn_skipn.
  - rewrite !skipn_skipn. f_equal. lia.
Qed.

(** The replacement of each match stands in the result. *)
Lemma splice_occurs (s : str) (f : mresult -> str) (ms : list mresult) :
  forall pos res,
    In res ms ->
    occurs_in (f res) (splice s pos (map (fun x => (x, f x)) ms)).
Proof.
  induction ms as [|x ms IH]; intros pos res Hin; [destruct Hin|].
  simpl. destruct Hin as [->|Hin].
  - now eexists _, _.
  - destruct (IH (index x + mlen x) res Hin) as (a & b & ->).
    exists (firstn (index x - pos) (skipn pos s) ++ f x ++ a), b.
    now rewrite <- !app_assoc.
Qed.

Lemma replace_all_fn_same (r : regex) (f : mresult -> str) (s : str) :
  (forall res, In res (match_all r s) -> f res = matched s res) ->
  replace_all_fn r f s = s.
Proof.
  intros H. unfold replace_all_fn.
  rewrite splice_same; [reflexivity| apply exec_all_chain | exact H].
Qed.

Lemma replace_all_fn_occurs (r : regex) (f : mresult -> str) (s : str)
  (res : mresult) :
  In res (match_all r s) -> occurs_in (f res) (replace_all_fn r f s).
Proof. intros H. now apply splice_occurs. Qed.

Lemma bind_Ok {A B : Type} (x : result A) (f : A -> result B) (b : B) :
  bind x f = Ok b <-> exists a, x = Ok a /\ f a = Ok b.
Proof.
  destruct x as [a|e]; simpl; split.
  - intros H. now exists a.
  - now intros (a' & [= <-] & H).
  - discriminate.
  - now intros (a' & [=] & _).
Qed.

(** A replacer that does not throw on the matches. *)
Lemma replacements_pure (f : mresult -> result str) (g : mresult -> str)
  (ms : list mresult) :
  (forall res, In res ms -> f res = Ok (g res)) ->
  replacements f ms = Ok (map (fun res => (res, g res)) ms).
Proof.
  induction ms as [|res ms IH]; intros H; simpl; [reflexivity|].
  rewrite (H res) by now left. simpl.
  rewrite IH by (intros; apply H; now right). reflexivity.
Qed.

Lemma replace_all_try_pure (r : regex) (f : mresult -> result str)
  (g : mresult -> str) (s : str) :
  (forall res, In res (match_all r s) -> f res = Ok (g res)) ->
  replace_all_try r f s = Ok (replace_all_fn r g s).
Proof.
  intros H. unfold replace_all_try, replace_all_fn.
  now rewrite (replacements_pure f g _ H).
Qed.

Lemma replacements_In (f : mresult -> result str) (ms : list mresult) :
  forall rs, replacements f ms = Ok rs ->
  forall res repl, In res ms -> f res = Ok repl -> In (res, repl) rs.
Proof.
  induction ms as [|x ms IH]; intros rs H res repl Hin Hf; [destruct Hin|].
  simpl in H. apply bind_Ok in H as (rx & Fx & H).
  apply bind_Ok in H as (rs' & R & [= <-]).
  destruct Hin as [->|Hin].
  - left. congruence.
  - right. now apply (IH rs' R).
Qed.

Lemma replacements_Throw (f : mresult -> result str) (ms : list mresult)
  (e : thrown) :
  replacements f ms = Throw e -> exists res, In res ms /\ f res = Throw e.
Proof.
  induction ms as [|x ms IH]; simpl; [discriminate|].
  destruct (f x) as [rx|e'] eqn:Fx; simpl.
  - destruct (replacements f ms) as [rs|e''] eqn:R; simpl; [discriminate|].
    intros [= ->]. destruct (IH eq_refl) as (res & Hin & Hf).
    exists res. split; [now right|exact Hf].
  - intros [= ->]. exists x. split; [now left|exact Fx].
Qed.

Lemma splice_occurs_in (s : str) (rs : list (mresult * str)) :
  forall pos res repl,
    In (res, repl) rs -> occurs_in repl (splice s pos rs).
Proof.
  induction rs as [|[x rx] rs IH]; intros pos res repl Hin; [destruct Hin|].
  simpl. destruct Hin as [[= -> ->]|Hin].
  - now eexists _, _.
  - destruct (IH (index x + mlen x) res repl Hin) as (a & b & ->).
    exists (firstn (index x - pos) (skipn pos s) ++ rx ++ a), b.
    now rewrite <- !app_assoc.
Qed.

(** The call either returns a text in which the replacement of each match
    stands, or throws what the replacer threw at one of the matches. *)
Lemma replace_all_try_outcome (r : regex) (f : mresult -> result str)
  (s : str) (res : mresult) (repl : str) :
  In res (match_all r s) ->
  f res = Ok repl ->
  match replace_all_try r f s with
  | Ok out => occurs_in repl out
  | Throw e => exists res', In res' (match_all r s) /\ f res' = Throw e
  end.
Proof.
  intros Hin Hf. unfold replace_all_try.
  destruct (replacements f (match_all r s)) as [rs|e] eqn:R; simpl.
  - apply splice_occurs_in with (res := res).
    now apply (replacements_In f _ _ R).
  - now apply replacements_Throw.
Qed.

End RegexFacts.

(** ** The template engine *)

Section TemplateFacts.
Import TemplateEngine.

Lemma stops_mid_walk_here (rt : runtime) (v : jsval) (p : str)
  (ps : list str) :
  is_nullish v = true -> stops_mid_walk rt v (p :: ps).
Proof.
  intros N. exists [], (p :: ps), v. repeat split; [discriminate|exact N].
Qed.

Lemma stops_mid_walk_cons (rt : runtime) (v : jsval) (p : str)
  (ps : list str) :
  is_nullish v = false ->
  stops_mid_walk rt v (p :: ps) <->
  exists v', get rt v p = Ok v' /\ stops_mid_walk rt v' ps.
Proof.
  intros N. split.
  - intros (pre & post & w & E & Hne & W & Hn).
    destruct pre as [|q pre].
    + simpl in W. injection W as <-. congruence.
    + injection E as <- ->. simpl in W.
      apply bind_Ok in W as (v' & G & W).
      exists v'. split; [exact G|]. now exists pre, post, w.
  - intros (v' & G & pre & post & w & -> & Hne & W & Hn).
    exists (p :: pre), post, w. repeat split; try assumption.
    simpl. now rewrite G.
Qed.

Lemma unresolved_cons (rt : runtime) (v : jsval) (p : str) (ps : list str) :
  is_nullish v = false ->
  unresolved rt v (p :: ps) <->
  exists v', get rt v p = Ok v' /\ unresolved rt v' ps.
Proof.
  intros N. unfold unresolved. rewrite (stops_mid_walk_cons rt v p ps N).
  simpl walk. rewrite bind_Ok. split.
  - intros [(v' & G & H)|(v' & G & H)]; exists v'; auto.
  - intros (v' & G & [H|H]); [left|right]; now exists v'.
Qed.

(** [getValueFromContext] returns [undefined] exactly when the walk meets
    [undefined] or [null] with segments left, or ends on [undefined]. *)
Lemma descend_None_iff (rt : runtime) (parts : list str) :
  forall v, descend rt parts v = Ok None <-> unresolved rt v parts.
Proof.
  induction parts as [|p ps IH]; intros v.
  - unfold unresolved. simpl. split.
    + destruct v; simpl; try (now right);
        try discriminate;
        try (destruct (object_string rt _); discriminate).
      destruct b; discriminate.
    + intros [(pre & post & w & E & Hne & _) | [= ->]]; [|reflexivity].
      symmetry in E. apply app_eq_nil in E as [_ ->]. now destruct Hne.
  - simpl descend. destruct (is_nullish v) eqn:N.
    + split; [|reflexivity]. intros _. left.
      now apply stops_mid_walk_here.
    + rewrite (unresolved_cons rt v p ps N), bind_Ok.
      split; intros (v' & G & H); exists v'; split; try assumption;
        now apply IH.
Qed.

(** A walk that goes through gives the value that is converted. *)
Lemma descend_walk (rt : runtime) (parts : list str) :
  forall v w,
    walk rt v parts = Ok w ->
    descend rt parts v
    = if is_undefined w then Ok None
      else bind (to_string rt w) (fun s => Ok (Some s)).
Proof.
  induction parts as [|p ps IH]; intros v w W; simpl in *.
  - now injection W as <-.
  - apply bind_Ok in W as (v' & G & W).
    destruct (is_nullish v) eqn:N.
    + destruct v; try discriminate N; discriminate G.
    + rewrite G. simpl. now apply IH.
Qed.

(** A walk that goes through does not stop on the way. *)
Lemma walk_through (rt : runtime) (parts : list str) :
  forall v w, walk rt v parts = Ok w -> ~ stops_mid_walk rt v parts.
Proof.
  induction parts as [|p ps IH]; intros v w W.
  - intros (pre & post & x & E & Hne & _).
    symmetry in E. apply app_eq_nil in E as [_ ->]. now destruct Hne.
  - simpl in W. apply bind_Ok in W as (v' & G & W).
    assert (N : is_nullish v = false)
      by (destruct v; try reflexivity; discriminate G).
    rewrite (stops_mid_walk_cons rt v p ps N).
    intros (v'' & G' & S). rewrite G in G'. injection G' as <-.
    now apply (IH v' w).
Qed.

(** The runtime of the examples: a plain object inherits the member
    [constructor], the function [Object], and the function has its
    name. *)
Lemma inherited_member_rendered :
  processTemplate Runtime.standard (lit "{{a.constructor.name}}")
    (JObj [(lit "a", JObj [])]) = Ok (lit "Object")
  /\ processTemplate Runtime.standard (lit "{{a.toString}}")
       (JObj [(lit "a", JObj [])])
     = Ok (lit "function toString() { [native code] }")
  /\ processTemplate Runtime.standard (lit "{{a.constructor.caller}}")
       (JObj [(lit "a", JObj [])]) = Throw JsTypeError.
Proof. vm_compute. repeat split. Qed.

End TemplateFacts.

Section TemplateClaims.
Import TemplateEngine.

(** C9. [processTemplate] and [processFileName] are the same function:
    file contents and file names are rendered by the same substitution. *)
Theorem C9_processTemplate_eq_processFileName :
  forall (rt : runtime) (s : str) (context : jsval),
    processTemplate rt s context = processFileName rt s context.
Proof. intros rt s context. reflexivity. Qed.

(** C10. In every runtime: when the walk along a placeholder's path goes
    through every segment and the value of the whole path is [null],
    [getValueFromContext] returns the string ["null"] and the placeholder
    is replaced by it, so that [processTemplate] returns a text in which
    it stands unless the lookup of another placeholder throws;
    [getValueFromContext] returns [undefined], and the placeholder is
    kept, only when the walk meets [undefined] or [null] with segments
    left or ends on [undefined]; and
    [processTemplate("{{a.b}}", {a: {b: null}})] returns ["null"]. *)
Theorem C10_final_null_substituted :
  (forall rt template context res,
      In res (match_all TEMPLATE_PLACEHOLDER_REGEX template) ->
      walk rt context (placeholder_path res) = Ok JNull ->
      ~ stops_mid_walk rt context (placeholder_path res)
      /\ getValueFromContext rt (trim (group 1 res)) context
         = Ok (Some (lit "null"))
      /\ template_replacer rt template context res = Ok (lit "null")
      /\ match processTemplate rt template context with
         | Ok out => occurs_in (lit "null") out
         | Throw e =>
             exists res',
               In res' (match_all TEMPLATE_PLACEHOLDER_REGEX template)
               /\ template_replacer rt template context res' = Throw e
         end)
  /\ (forall rt path context,
        getValueFromContext rt path context = Ok None <->
        unresolved rt context (split_on "."%char path))
  /\ (forall rt,
        processTemplate rt (lit "{{a.b}}")
          (JObj [(lit "a", JObj [(lit "b", JNull)])]) = Ok (lit "null")).
Proof.
  split; [|split].
  - intros rt template context res Hin Hnull.
    assert (V : getValueFromContext rt (trim (group 1 res)) context
                = Ok (Some (lit "null"))).
    { unfold getValueFromContext. fold (placeholder_path res).
      now rewrite (descend_walk rt _ _ _ Hnull). }
    assert (E : template_replacer rt template context res = Ok (lit "null")).
    { unfold template_replacer. now rewrite V. }
    split; [now apply (walk_through rt _ _ _ Hnull)|].
    split; [exact V|]. split; [exact E|].
    unfold processTemplate.
    now apply replace_all_try_outcome with (res := res).
  - intros rt path context. unfold getValueFromContext.
    apply descend_None_iff.
  - intros rt. reflexivity.
Qed.

(** The placeholder of ["{{a.b}}"] in the context [{a: {b: null}}]. *)
Lemma C10_witness :
  let res := {| index := 0; mlen := 7; groups := [(1, lit "a.b")] |} in
  let context := JObj [(lit "a", JObj [(lit "b", JNull)])] in
  ~ stops_mid_walk Runtime.standard context (placeholder_path res)
  /\ getValueFromContext Runtime.standard (trim (group 1 res)) context
     = Ok (Some (lit "null"))
  /\ template_replacer Runtime.standard (lit "{{a.b}}") context res
     = Ok (lit "null")
  /\ match processTemplate Runtime.standard (lit "{{a.b}}") context with
     | Ok out => occurs_in (lit "null") out
     | Throw e =>
         exists res',
           In res' (match_all TEMPLATE_PLACEHOLDER_REGEX (lit "{{a.b}}"))
           /\ template_replacer Runtime.standard (lit "{{a.b}}") context res'
              = Throw e
     end.
Proof.
  intros res context.
  apply (proj1 C10_final_null_substituted Runtime.standard
           (lit "{{a.b}}") context res).
  - vm_compute. left. reflexivity.
  - reflexivity.
Defined.

End TemplateClaims.

(** ** Environment files *)

Section EnvFacts.
Import ConfigManager.

Lemma split_on_nonempty (c : ascii) (s : str) : split_on c s <> [].
Proof.
  destruct s as [|x s]; simpl; [discriminate|].
  destruct (Ascii.eqb x c); [discriminate|].
  destruct (split_on c s); discriminate.
Qed.

Lemma split_on_app_sep (c : ascii) (a b : str) :
  split_on c (a ++ c :: b) = split_on c a ++ split_on c b.
Proof.
  induction a as [|x a IH]; simpl.
  - now rewrite Ascii.eqb_refl.
  - destruct (Ascii.eqb x c); [now rewrite IH|].
    rewrite IH. pose proof (split_on_nonempty c a) as N.
    destruct (split_on c a); [now destruct N|reflexivity].
Qed.

Lemma lines_app_nl (a b : str) :
  lines (a ++ nl ++ b) = lines a ++ lines b.
Proof. apply split_on_app_sep. Qed.

Lemma appkit_block_starts_nl (config : SolanaConfig) :
  exists rest, appkit_block config = nl ++ rest.
Proof. unfold appkit_block. now eexists. Qed.

(** The generated content begins with the heading, the network line and
    the endpoint line. *)
Lemma env_content_head (config : SolanaConfig) :
  exists tail,
    generateEnvContent config
    = (lit "# Solana Configuration
NEXT_PUBLIC_SOLANA_NETWORK=" ++ network_name (network config) ++ lit "
NEXT_PUBLIC_SOLANA_RPC_URL=" ++ network_url (network_name (network config)))
      ++ nl ++ tail.
Proof.
  unfold generateEnvContent.
  destruct (truthy (useAppKit config)); eexists;
    rewrite <- !app_assoc; reflexivity.
Qed.

Lemma env_content_lines (config : SolanaConfig) :
  nth_error (lines (generateEnvContent config)) 1
  = Some (lit "NEXT_PUBLIC_SOLANA_NETWORK=" ++ network_name (network config))
  /\ nth_error (lines (generateEnvContent config)) 2
     = Some (lit "NEXT_PUBLIC_SOLANA_RPC_URL="
             ++ network_url (network_name (network config))).
Proof.
  destruct (env_content_head config) as (tail & ->).
  rewrite lines_app_nl.
  destruct (network config);
    (split; (rewrite nth_error_app1; [|vm_compute; lia]);
     vm_compute; reflexivity).
Qed.

End EnvFacts.

Section EnvClaims.
Import ConfigManager.

(** C7. The env-content generator looks the endpoint up in a table of four
    entries, for mainnet-beta, testnet, devnet and localnet.  For every
    configuration the second line of the generated content names the
    network and the third line is [NEXT_PUBLIC_SOLANA_RPC_URL=] followed by
    the entry that the table has for that network; so the content has the
    line of its network, and for a configuration whose network is devnet
    the line [NEXT_PUBLIC_SOLANA_RPC_URL=https://api.devnet.solana.com]. *)
Theorem C7_devnet_rpc_url_line :
  networkUrls
  = [ (lit "mainnet-beta", lit "https://api.mainnet-beta.solana.com");
      (lit "testnet", lit "https://api.testnet.solana.com");
      (lit "devnet", lit "https://api.devnet.solana.com");
      (lit "localnet", lit "http://127.0.0.1:8899") ]
  /\ (forall config,
        exists url,
          table_get (network_name (network config)) networkUrls = Some url
          /\ nth_error (lines (generateEnvContent config)) 1
             = Some (lit "NEXT_PUBLIC_SOLANA_NETWORK="
                     ++ network_name (network config))
          /\ nth_error (lines (generateEnvContent config)) 2
             = Some (lit "NEXT_PUBLIC_SOLANA_RPC_URL=" ++ url))
  /\ (forall config,
        In (match network config with
            | MainnetBeta =>
                lit "NEXT_PUBLIC_SOLANA_RPC_URL=https://api.mainnet-beta.solana.com"
            | Testnet =>
                lit "NEXT_PUBLIC_SOLANA_RPC_URL=https://api.testnet.solana.com"
            | Devnet =>
                lit "NEXT_PUBLIC_SOLANA_RPC_URL=https://api.devnet.solana.com"
            | Localnet =>
                lit "NEXT_PUBLIC_SOLANA_RPC_URL=http://127.0.0.1:8899"
            end)
           (lines (generateEnvContent config)))
  /\ (forall config,
        network config = Devnet ->
        In (lit "NEXT_PUBLIC_SOLANA_RPC_URL=https://api.devnet.solana.com")
           (lines (generateEnvContent config))).
Proof.
  assert (L : forall config,
             In (lit "NEXT_PUBLIC_SOLANA_RPC_URL="
                 ++ network_url (network_name (network config)))
                (lines (generateEnvContent config))).
  { intros config. apply nth_error_In with (n := 2).
    apply env_content_lines. }
  split; [reflexivity|]. split; [|split].
  - intros config.
    destruct (env_content_lines config) as [L1 L2].
    exists (network_url (network_name (network config))).
    split; [now destruct (network config)|]. now split.
  - intros config. specialize (L config).
    now destruct (network config).
  - intros config H. specialize (L config). now rewrite H in L.
Qed.

(** The default configuration: its network is devnet. *)
Lemma C7_witness :
  In (lit "NEXT_PUBLIC_SOLANA_RPC_URL=https://api.devnet.solana.com")
     (lines (generateEnvContent DEFAULT_CONFIG)).
Proof.
  apply (proj2 (proj2 (proj2 C7_devnet_rpc_url_line)) DEFAULT_CONFIG).
  reflexivity.
Defined.

(** C8, as stated, fails: with the default configuration (AppKit on) and
    an existing [.env.local] that sets only [FOO], the generated set has
    the key [NEXT_PUBLIC_SOLANA_RPC_URL], the existing file lacks it, and
    the file after the run still lacks it: only the project id block was
    appended. *)
Lemma C8_counterexample :
  In (lit "NEXT_PUBLIC_SOLANA_RPC_URL")
     (env_keys (generateEnvContent DEFAULT_CONFIG))
  /\ existsb (str_eqb (lit "NEXT_PUBLIC_SOLANA_RPC_URL"))
       (env_keys (lit "FOO=1
")) = false
  /\ env_local
       (fst (createEnvFile DEFAULT_CONFIG
               {| env_local := Some (lit "FOO=1
"); env_example := None |}))
     = Some (lit "FOO=1
" ++ appkit_block DEFAULT_CONFIG)
  /\ existsb (str_eqb (lit "NEXT_PUBLIC_SOLANA_RPC_URL"))
       (env_keys (lit "FOO=1
" ++ appkit_block DEFAULT_CONFIG)) = false.
Proof.
  split; [|split; [|split]].
  - apply nth_error_In with (n := 1). vm_compute. reflexivity.
  - vm_compute. reflexivity.
  - vm_compute. reflexivity.
  - vm_compute. reflexivity.
Qed.

(** C8, amended. Re-running on an existing [.env.local] never changes
    what is there: the file after the run is the old content followed by
    what was appended, and every old line is a line of the new file, in
    place.  What is appended is nothing, or, when AppKit is on and the
    file has no [NEXT_PUBLIC_PROJECT_ID=], the AppKit project id block;
    no other key of the generated set is ever added. *)
Theorem C8_env_rerun_appends_project_id_only :
  forall config existing example,
    let fs' := fst (createEnvFile config
                      {| env_local := Some existing;
                         env_example := example |}) in
    exists appended,
      env_local fs' = Some (existing ++ appended)
      /\ (appended =
           if truthy (useAppKit config)
              && negb (includes (lit "NEXT_PUBLIC_PROJECT_ID=") existing)
           then appkit_block config else [])
      /\ (exists more, lines (existing ++ appended) = lines existing ++ more)
      /\ env_example fs' = Some (generateEnvContent config).
Proof.
  intros config existing example fs'. subst fs'.
  unfold createEnvFile. cbn [env_local].
  destruct (truthy (useAppKit config)); cbn [andb].
  - destruct (includes (lit "NEXT_PUBLIC_PROJECT_ID=") existing);
      cbn [negb fst env_local env_example].
    + exists []. rewrite app_nil_r.
      split; [reflexivity|]. split; [reflexivity|].
      split; [|reflexivity]. exists []. now rewrite app_nil_r.
    + exists (appkit_block config).
      split; [reflexivity|]. split; [reflexivity|].
      split; [|reflexivity].
      destruct (appkit_block_starts_nl config) as (rest & ->).
      rewrite lines_app_nl. now eexists.
  - cbn [fst env_local env_example].
    exists []. rewrite app_nil_r.
    split; [reflexivity|]. split; [reflexivity|].
    split; [|reflexivity]. exists []. now rewrite app_nil_r.
Qed.

End EnvClaims.

(** ** Replacement templates keep their plain pieces *)

Section ExpandFacts.

Lemma expand_cons (env : subst_env) (c : ascii) (t1 : str) :
  expand env (c :: t1) =
  if Ascii.eqb c "$"%char then
    match t1 with
    | d :: t2 =>
        if Ascii.eqb d "$"%char then "$"%char :: expand env t2
        else if Ascii.eqb d "&"%char then se_matched env ++ expand env t2
        else if Ascii.eqb d "`"%char then se_before env ++ expand env t2
        else if Ascii.eqb d "'"%char then se_after env ++ expand env t2
        else if is_digit d then
          let caps := se_captures env in
          let one :=
            if in_range caps (digit_val d)
            then capture caps (digit_val d) ++ expand env t2
            else c :: expand env t1 in
          match t2 with
          | d2 :: t3 =>
              if is_digit d2 then
                let i2 := 10 * digit_val d + digit_val d2 in
                if in_range caps i2 then capture caps i2 ++ expand env t3
                else if length caps <? i2 then one
                else c :: expand env t1
              else one
          | [] => one
          end
        else c :: expand env t1
    | [] => [c]
    end
  else c :: expand env t1.
Proof. reflexivity. Qed.

Lemma expand_no_dollar (env : subst_env) (l b : str) :
  no_dollar l = true -> expand env (l ++ b) = l ++ expand env b.
Proof.
  induction l as [|c l IH]; intros H; [reflexivity|].
  simpl in H. apply andb_prop in H as [Hc Hl].
  apply negb_true_iff in Hc.
  change ((c :: l) ++ b) with (c :: (l ++ b)).
  rewrite expand_cons, Hc. simpl. f_equal. now apply IH.
Qed.

Lemma expand_no_dollar_id (env : subst_env) (l : str) :
  no_dollar l = true -> expand env l = l.
Proof.
  intros H. rewrite <- (app_nil_r l) at 1.
  rewrite expand_no_dollar by assumption. simpl. apply app_nil_r.
Qed.

Lemma special_false (c : ascii) :
  special c = false ->
  Ascii.eqb c "$"%char = false /\ Ascii.eqb c "&"%char = false
  /\ Ascii.eqb c "`"%char = false /\ Ascii.eqb c "'"%char = false
  /\ is_digit c = false.
Proof.
  unfold special. intros H.
  repeat (apply orb_false_elim in H as [H ?]). now repeat split.
Qed.

Lemma expand_keeps (env : subst_env) (l b : str) :
  plain l = true ->
  forall n a, length a <= n ->
    exists a', expand env (a ++ l ++ b) = a' ++ l ++ expand env b.
Proof.
  intros HL.
  destruct l as [|h l']; [discriminate|].
  simpl in HL. apply andb_prop in HL as [Hh Hnd].
  apply negb_true_iff in Hh.
  destruct (special_false _ Hh) as (H1 & H2 & H3 & H4 & H5).
  assert (P0 : expand env ((h :: l') ++ b) = (h :: l') ++ expand env b)
    by (apply expand_no_dollar; exact Hnd).
  induction n as [n IH] using lt_wf_ind. intros a Hlen.
  destruct a as [|c a1]; [now exists []|].
  assert (IH1 : exists a', expand env (a1 ++ (h :: l') ++ b)
                           = a' ++ (h :: l') ++ expand env b).
  { apply (IH (length a1)); simpl in Hlen; lia. }
  change ((c :: a1) ++ (h :: l') ++ b) with (c :: (a1 ++ (h :: l') ++ b)).
  rewrite expand_cons.
  destruct (Ascii.eqb c "$"%char) eqn:Ec.
  2:{ destruct IH1 as (a' & ->). now exists (c :: a'). }
  assert (Lit : exists a', c :: expand env (a1 ++ (h :: l') ++ b)
                           = a' ++ (h :: l') ++ expand env b).
  { destruct IH1 as (a' & ->). now exists (c :: a'). }
  destruct a1 as [|d a2].
  { simpl app at 1. cbv beta iota.
    change ((h :: l') ++ b) with (h :: (l' ++ b)) at 1.
    cbv beta iota. rewrite H1, H2, H3, H4, H5. exact Lit. }
  assert (IH2 : exists a', expand env (a2 ++ (h :: l') ++ b)
                           = a' ++ (h :: l') ++ expand env b).
  { apply (IH (length a2)); simpl in Hlen; lia. }
  change ((d :: a2) ++ (h :: l') ++ b) with (d :: (a2 ++ (h :: l') ++ b)).
  cbv beta iota.
  destruct (Ascii.eqb d "$"%char).
  { destruct IH2 as (a' & ->). now exists ("$"%char :: a'). }
  destruct (Ascii.eqb d "&"%char).
  { destruct IH2 as (a' & ->). exists (se_matched env ++ a').
    now rewrite <- app_assoc. }
  destruct (Ascii.eqb d "`"%char).
  { destruct IH2 as (a' & ->). exists (se_before env ++ a').
    now rewrite <- app_assoc. }
  destruct (Ascii.eqb d "'"%char).
  { destruct IH2 as (a' & ->). exists (se_after env ++ a').
    now rewrite <- app_assoc. }
  destruct (is_digit d); [|exact Lit].
  cbv zeta.
  assert (One : exists a',
             (if in_range (se_captures env) (digit_val d)
              then capture (se_captures env) (digit_val d)
                   ++ expand env (a2 ++ (h :: l') ++ b)
              else c :: expand env (d :: a2 ++ (h :: l') ++ b))
             = a' ++ (h :: l') ++ expand env b).
  { destruct (in_range (se_captures env) (digit_val d)); [|exact Lit].
    destruct IH2 as (a' & ->).
    exists (capture (se_captures env) (digit_val d) ++ a').
    now rewrite <- app_assoc. }
  destruct a2 as [|d2 a3].
  { simpl app at 1. simpl app at 2.
    change ((h :: l') ++ b) with (h :: (l' ++ b)) at 1.
    cbv beta iota. rewrite H5. exact One. }
  change ((d2 :: a3) ++ (h :: l') ++ b) with (d2 :: (a3 ++ (h :: l') ++ b)).
  cbv beta iota.
  destruct (is_digit d2); [|exact One].
  destruct (in_range (se_captures env) (10 * digit_val d + digit_val d2)).
  { assert (IH3 : exists a', expand env (a3 ++ (h :: l') ++ b)
                             = a' ++ (h :: l') ++ expand env b).
    { apply (IH (length a3)); simpl in Hlen; lia. }
    destruct IH3 as (a' & ->).
    eexists (capture (se_captures env) _ ++ a').
    now rewrite <- app_assoc. }
  destruct (length (se_captures env) <? 10 * digit_val d + digit_val d2);
    [exact One|exact Lit].
Qed.

Lemma expand_carries (env : subst_env) (marker template : str) :
  carries marker template -> includes marker (expand env template) = true.
Proof.
  intros (a & l & b & -> & Hp & Hi).
  destruct (expand_keeps env l b Hp (length a) a (le_n _)) as (a' & ->).
  apply includes_app_r, includes_app_l, Hi.
Qed.

(** A string-pattern replacement leaves the input alone or puts the
    expanded template in place of the pattern. *)
Lemma replace_str_cases (s pat template : str) :
  replace_str s pat template = s
  \/ exists before after,
      s = before ++ pat ++ after
      /\ replace_str s pat template
         = before
           ++ expand {| se_matched := pat; se_before := before;
                        se_after := after; se_captures := [] |} template
           ++ after.
Proof.
  unfold replace_str. destruct (find pat s) as [i|] eqn:F; [|now left].
  right. exists (firstn i s), (skipn (i + length pat) s).
  split; [now apply find_split|reflexivity].
Qed.

Lemma replace_str_carries (marker s pat template : str) :
  carries marker template ->
  replace_str s pat template = s
  \/ includes marker (replace_str s pat template) = true.
Proof.
  intros C. destruct (replace_str_cases s pat template)
    as [E | (before & after & _ & ->)]; [now left|right].
  apply includes_app_r, includes_app_l, expand_carries, C.
Qed.

Lemma replace_fn_cases (r : regex) (f : mresult -> str) (s : str) :
  replace_fn r f s = s
  \/ exists res,
      exec r s = Some res
      /\ replace_fn r f s = before_match s res ++ f res ++ after_match s res.
Proof.
  unfold replace_fn. destruct (exec r s) as [res|]; [right|now left].
  now exists res.
Qed.

Lemma replace_tpl_carries (marker : str) (r : regex) (n : nat)
  (template s : str) :
  carries marker template ->
  replace_tpl r n template s = s
  \/ includes marker (replace_tpl r n template s) = true.
Proof.
  intros C. unfold replace_tpl.
  destruct (replace_fn_cases r
    (fun res =>
       expand {| se_matched := matched s res;
                 se_before := before_match s res;
                 se_after := after_match s res;
                 se_captures := captures_upto n res |} template) s)
    as [E | (res & _ & ->)]; [now left|right].
  apply includes_app_r, includes_app_l, expand_carries, C.
Qed.

End ExpandFacts.

(** ** Patchers behind a marker guard *)

Section GuardFacts.
Import Imports.

(** A patcher that writes nothing when its guard holds, and whose every
    write either repeats the content it read or makes the guard hold, is
    idempotent. *)
Lemma guarded_idempotent (P : str -> effect) (g : str -> bool) :
  (forall c, g c = true -> written (P c) = None) ->
  (forall c c', written (P c) = Some c' -> c' = c \/ g c' = true) ->
  forall F, apply_patch P (apply_patch P F) = apply_patch P F.
Proof.
  intros Hg Hw F. unfold apply_patch, file_after.
  destruct (written (P F)) as [c'|] eqn:W.
  - destruct (Hw _ _ W) as [-> | G].
    + now rewrite W.
    + now rewrite (Hg _ G).
  - now rewrite W.
Qed.

Lemma add_import_includes (marker : str) (re : regex)
  (behind in_front content : str) :
  includes marker behind = true ->
  includes marker in_front = true ->
  includes marker (add_import re behind in_front content) = true.
Proof.
  intros Hb Hf. unfold add_import, insert_at.
  destruct (importPos re content).
  - now apply includes_app_r, includes_app_l.
  - now apply includes_app_l.
Qed.

Lemma replace_str_keeps (marker s pat template : str) :
  carries marker template ->
  includes marker s = true ->
  includes marker (replace_str s pat template) = true.
Proof.
  intros C H.
  destruct (replace_str_carries marker s pat template C) as [-> | E];
    assumption.
Qed.

End GuardFacts.

Ltac carry a l b :=
  exists a, l, b;
  split; [ repeat rewrite <- app_assoc; reflexivity
         | split; vm_compute; reflexivity ].

Section ReactFacts.
Import Imports ReactFramework.


End ReactFacts.

Section PagesFacts.
Import Imports NextjsFramework.


End PagesFacts.

Section VueFacts.
Import Imports VueFramework.




End VueFacts.

Section LayoutFacts.
Import Imports NextjsFramework.

Lemma tokens_guard_of (tokens : list str) (t content : str) :
  In t tokens -> includes t content = true ->
  tokens_guard tokens content = true.
Proof.
  intros Hin Hi. unfold tokens_guard. apply existsb_exists. now exists t.
Qed.

Lemma replace_children_shape (p : provider) (inner : str) :
  p = appkit \/ p = wallet_adapter ->
  includes children inner = true ->
  exists a b,
    replace_str inner children (wrapped_children p)
    = a ++ open_tag p ++ b.
Proof.
  intros Hp Hi. unfold includes in Hi. unfold replace_str.
  destruct (find children inner) as [i|]; [|discriminate].
  rewrite expand_no_dollar_id
    by (destruct Hp as [-> | ->]; vm_compute; reflexivity).
  unfold wrapped_children.
  exists (firstn i inner),
         (children ++ close_tag p ++ skipn (i + length children) inner).
  now rewrite <- !app_assoc.
Qed.

Lemma wrap_children_keeps (p : provider) (u r : str) :
  p = appkit \/ p = wallet_adapter ->
  includes (name p) u = true ->
  wrap_children p u = inl r ->
  includes (name p) r = true.
Proof.
  intros Hp Hu. unfold wrap_children.
  assert (Open : forall a b, carries (name p) (a ++ open_tag p ++ b)).
  { intros a b. destruct Hp as [-> | ->].
    - carry a (open_tag appkit) b.
    - carry a (open_tag wallet_adapter) b. }
  destruct (exec BODY_RE u) as [bodyMatch|].
  { intros E. injection E as <-. apply replace_str_keeps; [|exact Hu].
    rewrite (app_assoc (group 1 bodyMatch)). apply Open. }
  destruct (exec SIMPLE_BODY_RE u) as [sb|].
  { destruct (includes children (group 2 sb)) eqn:Hc.
    - intros E. injection E as <-. apply replace_str_keeps; [|exact Hu].
      destruct (replace_children_shape p _ Hp Hc) as (a & b & ->).
      rewrite <- !app_assoc. rewrite (app_assoc (group 1 sb)). apply Open.
    - destruct (0 <? lastIndexOf (lit "<") (group 2 sb))%Z.
      + intros E. injection E as <-. apply replace_str_keeps; [|exact Hu].
        rewrite (app_assoc (group 1 sb)). apply Open.
      + intros E. injection E as <-. apply replace_str_keeps; [|exact Hu].
        apply Open. }
  destruct (exec RETURN_RE u) as [rm|]; [|discriminate].
  destruct (includes children (group 1 rm)) eqn:Hc; [|discriminate].
  intros E. injection E as <-. apply replace_str_keeps; [|exact Hu].
  destruct (replace_children_shape p _ Hp Hc) as (a & b & ->).
  rewrite <- !app_assoc. exact (Open (lit "return (" ++ a) (b ++ lit ");")).
Qed.

Lemma nextjs_body_marked (p : provider) (content : str) :
  p = appkit \/ p = wallet_adapter ->
  patch_nextjs_body p content = content
  \/ includes (first_name p) (patch_nextjs_body p content) = true.
Proof.
  intros Hp. unfold patch_nextjs_body.
  assert (Body : carries (first_name p) (body_template p)).
  { destruct Hp as [-> | ->].
    - carry (lit "<body$1>") (lit "
        <ContextProvider>") (lit "
          {children}
        </ContextProvider>
      </body>").
    - carry (lit "<body$1>") (lit "
        <ClientWalletProvider>") (lit "
          {children}
        </ClientWalletProvider>
      </body>"). }
  assert (Imp : forall a, carries (first_name p) (a ++ importStatement p)).
  { intros a. destruct Hp as [-> | ->].
    - carry a (importStatement appkit) (@nil ascii).
    - carry a (importStatement wallet_adapter) (@nil ascii). }
  assert (ImpI : includes (first_name p) (importStatement p) = true)
    by (destruct Hp as [-> | ->]; vm_compute; reflexivity).
  set (c1 := replace_tpl NEXTJS_BODY_RE 1 (body_template p) content).
  assert (H1 : c1 = content \/ includes (first_name p) c1 = true)
    by (apply replace_tpl_carries, Body).
  assert (Step : forall pat a,
             replace_str c1 pat (a ++ importStatement p) = content
             \/ includes (first_name p)
                  (replace_str c1 pat (a ++ importStatement p)) = true).
  { intros pat a.
    destruct (replace_str_carries _ c1 pat _ (Imp a)) as [-> | M];
      [exact H1|now right]. }
  destruct (includes globals_css c1).
  { rewrite (app_assoc globals_css). apply Step. }
  destruct (test IMPORT_LINE_RE c1).
  { destruct (match_global IMPORT_LINE_RE c1); [apply Step|].
    right. now apply includes_app_l. }
  right. now apply includes_app_l.
Qed.

Lemma layout_write_marked (p : provider) (layoutFile content c' : str) :
  p = appkit \/ p = wallet_adapter ->
  written (patch_layout p layoutFile content) = Some c' ->
  c' = content \/ tokens_guard (guard_tokens p) c' = true.
Proof.
  intros Hp. unfold patch_layout.
  destruct (existsb _ (guard_tokens p)); [discriminate|].
  assert (F : In (first_name p) (guard_tokens p))
    by (destruct Hp as [-> | ->]; simpl; auto).
  assert (N : In (name p) (guard_tokens p))
    by (destruct Hp as [-> | ->]; simpl; auto).
  destruct (test NEXTJS_BODY_TEST_RE content).
  - cbn [written write]. intros E. injection E as <-.
    destruct (nextjs_body_marked p content Hp) as [-> | M]; [now left|right].
    now apply tokens_guard_of with (t := first_name p).
  - set (u := layout_with_import p content).
    assert (Hu : includes (name p) u = true)
      by (apply add_import_includes;
          destruct Hp as [-> | ->]; vm_compute; reflexivity).
    destruct (wrap_children p u) as [r|w] eqn:W; [|discriminate].
    cbn [written write]. intros E. injection E as <-. right.
    apply tokens_guard_of with (t := name p); [exact N|].
    now apply (wrap_children_keeps p u r Hp Hu).
Qed.

End LayoutFacts.

(** ** The idempotency guard and the failure path of the patchers *)

Section FailureClaims.
Import Imports NextjsFramework.

Lemma logged_success_only (lv : level) (msg : str) :
  logged Warn {| written := None; log := [(lv, msg)] |} = true -> lv = Warn.
Proof. destruct lv; cbn; intros H; try discriminate; reflexivity. Qed.

(** C2, as stated, fails.  A config file with none of the three anchors of
    [updateNextConfig] is replaced by the fallback configuration; and
    [updateMainFile], on a file with no Vue application in it, warns and
    still writes the file with the import statement added. *)
Lemma C2_counterexample :
  (includes (lit "transpilePackages") (lit "// next config
") = false
   /\ includes (lit "module.exports") (lit "// next config
") = false
   /\ includes (lit "export default") (lit "// next config
") = false
   /\ apply_patch updateNextConfig (lit "// next config
")
      = fallback_config_with_webpack)
  /\ (logged Warn (VueFramework.updateMainFile (lit "src/main.js")
                     (lit "console.log('no app here')
")) = true
      /\ apply_patch (VueFramework.updateMainFile (lit "src/main.js"))
           (lit "console.log('no app here')
")
         = lit "import { SolanaPlugin } from './solana/wallet';

console.log('no app here')
").
Proof. vm_compute. repeat split. Qed.

(** C2, amended.  For the React entry-point updater, the Pages Router
    _app updater and the App Router layout updater: when the guard does
    not fire and the wrap anchor is not found, the patcher logs its
    warning and writes nothing, so the file is byte-identical; and no run
    of these three that logs a warning writes.  The Next.js config updater
    has no failure path: on a config file with none of its three anchors
    it writes, by design, the fallback configuration. *)
Theorem C2_failure_leaves_file_untouched :
  (forall entryFile content,
      includes (lit "SolanaProvider") content = false ->
      ReactFramework.appRenderMatch (ReactFramework.with_import content)
      = None ->
      ReactFramework.updateEntryPoint entryFile content
      = no_write [ReactFramework.not_found_warning]
      /\ apply_patch (ReactFramework.updateEntryPoint entryFile) content
         = content)
  /\ (forall appFile content,
        includes (lit "SolanaProvider") content = false ->
        exec COMPONENT_RE (app_with_import content) = None ->
        updatePagesRouterEntryPoint appFile content
        = no_write [app_not_found_warning]
        /\ apply_patch (updatePagesRouterEntryPoint appFile) content
           = content)
  /\ (forall p layoutFile content warning,
        tokens_guard (guard_tokens p) content = false ->
        test NEXTJS_BODY_TEST_RE content = false ->
        wrap_children p (layout_with_import p content) = inr warning ->
        patch_layout p layoutFile content = no_write [(Warn, warning)]
        /\ apply_patch (patch_layout p layoutFile) content = content)
  /\ (forall entryFile appFile cfg layoutFile content,
        (logged Warn (ReactFramework.updateEntryPoint entryFile content)
         = true ->
         written (ReactFramework.updateEntryPoint entryFile content) = None)
        /\ (logged Warn (updatePagesRouterEntryPoint appFile content) = true ->
            written (updatePagesRouterEntryPoint appFile content) = None)
        /\ (logged Warn (updateAppRouterEntryPoint cfg layoutFile content)
            = true ->
            written (updateAppRouterEntryPoint cfg layoutFile content) = None))
  /\ (forall content,
        includes MARKER content = false ->
        includes (lit "transpilePackages") content = false ->
        includes (lit "module.exports") content = false ->
        includes (lit "export default") content = false ->
        written (updateNextConfig content) = Some fallback_config_with_webpack).
Proof.
  split; [|split; [|split; [|split]]].
  - intros entryFile content G A. unfold apply_patch.
    unfold ReactFramework.updateEntryPoint. now rewrite G, A.
  - intros appFile content G A. unfold apply_patch.
    unfold updatePagesRouterEntryPoint. now rewrite G, A.
  - intros p layoutFile content warning G T W. unfold apply_patch.
    unfold patch_layout. unfold tokens_guard in G. now rewrite G, T, W.
  - intros entryFile appFile cfg layoutFile content. split; [|split].
    + unfold ReactFramework.updateEntryPoint.
      destruct (includes _ content); [reflexivity|].
      destruct (ReactFramework.appRenderMatch _); [|reflexivity].
      intros H. apply logged_success_only in H. discriminate.
    + unfold updatePagesRouterEntryPoint.
      destruct (includes _ content); [reflexivity|].
      destruct (exec COMPONENT_RE _); [|reflexivity].
      intros H. apply logged_success_only in H. discriminate.
    + assert (L : forall p,
                 logged Warn (patch_layout p layoutFile content) = true ->
                 written (patch_layout p layoutFile content) = None).
      { intros p. unfold patch_layout.
        destruct (existsb _ _); [reflexivity|].
        destruct (test _ content).
        - intros H. apply logged_success_only in H. discriminate.
        - destruct (wrap_children _ _); [|reflexivity].
          intros H. apply logged_success_only in H. discriminate. }
      destruct cfg as [[|]|]; [apply L | apply L | reflexivity].
  - intros content G A B C. unfold updateNextConfig, add_transpile.
    rewrite G, A, B, C. vm_compute. reflexivity.
Qed.

(** A file with no render call in it. *)
Lemma C2_witness :
  ReactFramework.updateEntryPoint (lit "src/index.js")
    (lit "export const answer = 42;")
  = no_write [ReactFramework.not_found_warning]
  /\ apply_patch (ReactFramework.updateEntryPoint (lit "src/index.js"))
       (lit "export const answer = 42;")
     = lit "export const answer = 42;".
Proof.
  apply (proj1 C2_failure_leaves_file_untouched).
  - vm_compute. reflexivity.
  - vm_compute. reflexivity.
Defined.

End FailureClaims.

(** ** The import anchor *)

Section ImportFacts.
Import Imports.

Lemma find_last_exists (p s : str) :
  forall j, j <= length s -> startsWith p (skipn j s) = true ->
            exists i, find_last p s = Some i.
Proof.
  induction s as [|c t IH]; intros j Hj H.
  - assert (j = 0) by (simpl in Hj; lia). subst j. simpl in *.
    rewrite H. now exists 0.
  - simpl. destruct j as [|j].
    + simpl in H. destruct (find_last p t); [now eexists|].
      rewrite H. now exists 0.
    + simpl in Hj, H. destruct (IH j) as (i & ->); [lia|exact H|].
      now eexists.
Qed.

Lemma find_last_occurs (p s : str) :
  forall i, find_last p s = Some i ->
            i <= length s /\ startsWith p (skipn i s) = true.
Proof.
  induction s as [|c t IH]; intros i H.
  - simpl in H. destruct (startsWith p []) eqn:E; [|discriminate].
    injection H as <-. now split.
  - simpl in H. destruct (find_last p t) as [i'|] eqn:F.
    + injection H as <-. destruct (IH i' eq_refl). simpl. split; [lia|auto].
    + destruct (startsWith p (c :: t)) eqn:E; [|discriminate].
      injection H as <-. split; [simpl; lia|exact E].
Qed.

Lemma find_last_max (p s : str) :
  forall i j, find_last p s = Some i ->
              j <= length s -> startsWith p (skipn j s) = true -> j <= i.
Proof.
  induction s as [|c t IH]; intros i j H Hj Hs.
  - simpl in Hj. lia.
  - destruct j as [|j]; [lia|]. simpl in Hj, Hs, H.
    destruct (find_last p t) as [i'|] eqn:F.
    + injection H as <-.
      assert (j <= i') by (apply IH; [reflexivity|lia|exact Hs]). lia.
    + destruct (find_last_exists p t j) as (i' & F'); [lia|exact Hs|].
      congruence.
Qed.

Lemma startsWith_firstn (n : nat) (s : str) : startsWith (firstn n s) s = true.
Proof.
  revert n; induction s as [|c t IH]; intros [|n]; simpl; try reflexivity.
  now rewrite Ascii.eqb_refl, IH.
Qed.

Lemma exec_from_bound (r : regex) (s : str) :
  forall p i res, exec_from r p s i = Some res -> index res <= i + length s.
Proof.
  induction s as [|c s IH]; intros p i res H; simpl in H.
  - destruct (m r Some _); [|discriminate]. injection H as <-. simpl. lia.
  - destruct (m r Some _).
    + injection H as <-. simpl. lia.
    + apply IH in H. simpl. lia.
Qed.

Lemma exec_at_bound (r : regex) (s : str) (from : nat) (res : mresult) :
  exec_at r s from = Some res -> index res <= length s.
Proof.
  unfold exec_at. destruct (length s <? from) eqn:E; [discriminate|].
  apply Nat.ltb_ge in E. intros H. apply exec_from_bound in H.
  rewrite length_skipn in H. lia.
Qed.

Lemma exec_all_in (r : regex) (s : str) (res : mresult) (fuel : nat) :
  forall from, In res (exec_all fuel r s from) ->
               exists from', exec_at r s from' = Some res.
Proof.
  induction fuel as [|fuel IH]; intros from H; simpl in H; [destruct H|].
  destruct (exec_at r s from) as [res0|] eqn:E; [|destruct H].
  destruct H as [<-|H]; [now exists from|]. now apply IH in H.
Qed.

Lemma match_all_bound (r : regex) (s : str) (res : mresult) :
  In res (match_all r s) -> index res <= length s.
Proof.
  intros H. apply exec_all_in in H as (from & H). now apply exec_at_bound in H.
Qed.

Lemma insert_at_nat (content text : str) (n : nat) :
  insert_at content (Z.of_nat n) text
  = firstn n content ++ text ++ skipn n content.
Proof.
  unfold insert_at, substring, substring_from, clamp.
  replace (Z.to_nat (Z.min (Z.max 0 0) (Z.of_nat (length content)))) with 0
    by lia.
  replace (Z.to_nat (Z.min (Z.max (Z.of_nat n) 0) (Z.of_nat (length content))))
    with (Nat.min n (length content)) by lia.
  rewrite Nat.min_0_l, Nat.max_0_l, Nat.sub_0_r. cbn [skipn].
  destruct (Nat.le_ge_cases n (length content)) as [H|H].
  - now rewrite Nat.min_l by exact H.
  - rewrite Nat.min_r by exact H.
    now rewrite firstn_all, skipn_all, firstn_all2, skipn_all2 by exact H.
Qed.

(** With matches, the import goes behind the last place where the text of
    the last match occurs. *)
Lemma add_import_last (re : regex) (behind in_front content : str)
  (ms : list mresult) (res : mresult) :
  match_all re content = ms ++ [res] ->
  exists i,
    find_last (matched content res) content = Some i
    /\ index res <= i
    /\ add_import re behind in_front content
       = firstn (i + length (matched content res)) content
         ++ behind
         ++ skipn (i + length (matched content res)) content.
Proof.
  intros M.
  assert (B : index res <= length content).
  { apply match_all_bound with (r := re). rewrite M.
    apply in_or_app. right. now left. }
  assert (O : startsWith (matched content res) (skipn (index res) content)
              = true) by apply startsWith_firstn.
  destruct (find_last_exists _ _ _ B O) as (i & F).
  exists i. split; [exact F|]. split.
  - now apply (find_last_max _ _ _ _ F B O).
  - unfold add_import, importPos, match_global. rewrite M.
    destruct (ms ++ [res]) eqn:E; [now destruct ms|]. rewrite <- E.
    rewrite map_app. simpl map. rewrite last_last.
    unfold lastIndexOf. rewrite F. rewrite <- Nat2Z.inj_add.
    apply insert_at_nat.
Qed.

End ImportFacts.

Section ImportClaims.
Import Imports.

(** C5, as stated, fails: when the text of the last matched import occurs
    again further down (here in a comment inside a function), the new
    import is put behind that later occurrence, not behind the import
    statement.  The only match ends at offset 19; the import lands at
    offset 57, inside the function, for the example text as for the text
    that the React updater inserts. *)
Lemma C5_counterexample :
  map (fun r => index r + mlen r)
    (match_all IMPORT_RE (lit "import a from 'a';
function f(){
  // import a from 'a';
}
")) = [19]
  /\ add_import IMPORT_RE (lit "import C from 'c';
") (lit "import C from 'c';
") (lit "import a from 'a';
function f(){
  // import a from 'a';
}
") = lit "import a from 'a';
function f(){
  // import a from 'a';
import C from 'c';
}
"
  /\ ReactFramework.with_import (lit "import a from 'a';
function f(){
  // import a from 'a';
}
") = lit "import a from 'a';
function f(){
  // import a from 'a';

import { SolanaProvider } from './solana/wallet';
}
".
Proof. vm_compute. repeat split. Qed.

(** C5, amended.  With no import statement the new import goes to the
    start of the file.  Otherwise it goes right behind the last place in
    the file where the text of the last matched import statement occurs;
    that place is the statement itself, so the import stands immediately
    behind the last matched import, whenever the text does not occur again
    further down.  The App Router layout updater and the React entry-point
    updater insert their imports in this way.  For the content of the
    example, inserting the import of [C] yields the expected file, and the
    React updater puts its import, which begins with a line break, at the
    same place. *)
Theorem C5_import_anchor :
  (forall content behind in_front,
      match_all IMPORT_RE content = [] ->
      add_import IMPORT_RE behind in_front content = in_front ++ content)
  /\ (forall content ms res behind in_front,
        match_all IMPORT_RE content = ms ++ [res] ->
        (exists i,
            find_last (matched content res) content = Some i
            /\ index res <= i
            /\ add_import IMPORT_RE behind in_front content
               = firstn (i + length (matched content res)) content
                 ++ behind
                 ++ skipn (i + length (matched content res)) content)
        /\ ((forall j, index res < j -> j <= length content ->
                       startsWith (matched content res) (skipn j content)
                       = false) ->
            add_import IMPORT_RE behind in_front content
            = firstn (index res + length (matched content res)) content
              ++ behind
              ++ skipn (index res + length (matched content res)) content))
  /\ (forall content,
        NextjsFramework.layout_with_import NextjsFramework.wallet_adapter
          content
        = add_import IMPORT_RE
            (lit "
// Import Solana wallet provider
import { ClientWalletProvider } from '../solana/wallet';
")
            (lit "// Import Solana wallet provider
import { ClientWalletProvider } from '../solana/wallet';

") content)
  /\ (forall content,
        ReactFramework.with_import content
        = add_import IMPORT_RE
            (lit "
import { SolanaProvider } from './solana/wallet';
")
            (lit "import { SolanaProvider } from './solana/wallet';

") content)
  /\ (forall in_front,
        add_import IMPORT_RE (lit "import C from 'c';
") in_front (lit "import A from 'a';
import B from 'b';
function f(){}")
        = lit "import A from 'a';
import B from 'b';
import C from 'c';
function f(){}")
  /\ ReactFramework.with_import (lit "import A from 'a';
import B from 'b';
function f(){}")
     = lit "import A from 'a';
import B from 'b';

import { SolanaProvider } from './solana/wallet';
function f(){}".
Proof.
  split; [|split; [|split; [|split; [|split]]]].
  - intros content behind in_front M.
    unfold add_import, importPos, match_global. now rewrite M.
  - intros content ms res behind in_front M.
    destruct (add_import_last IMPORT_RE behind in_front _ _ _ M)
      as (i & F & Hi & A).
    split; [now exists i|].
    intros Hlater. rewrite A.
    destruct (find_last_occurs _ _ _ F) as [Hb Hs].
    destruct (Nat.eq_dec i (index res)) as [->|Hne]; [reflexivity|].
    rewrite Hlater in Hs by lia. discriminate.
  - reflexivity.
  - reflexivity.
  - intros in_front. vm_compute. reflexivity.
  - vm_compute. reflexivity.
Qed.

(** The file of the example: two imports, the last ends at offset 38. *)
Lemma C5_witness :
  let content := lit "import A from 'a';
import B from 'b';
function f(){}" in
  let res := {| index := 19; mlen := 19; groups := [(1, lit "
")] |} in
  let behind := lit "import C from 'c';
" in
  (exists i,
      find_last (matched content res) content = Some i
      /\ index res <= i
      /\ add_import IMPORT_RE behind behind content
         = firstn (i + length (matched content res)) content
           ++ behind
           ++ skipn (i + length (matched content res)) content)
  /\ ((forall j, index res < j -> j <= length content ->
                 startsWith (matched content res) (skipn j content) = false) ->
      add_import IMPORT_RE behind behind content
      = firstn (index res + length (matched content res)) content
        ++ behind
        ++ skipn (index res + length (matched content res)) content).
Proof.
  intros content res behind.
  apply (proj1 (proj2 C5_import_anchor) content
           [{| index := 0; mlen := 19; groups := [(1, lit "
")] |}] res).
  vm_compute. reflexivity.
Defined.

End ImportClaims.

(** ** Wrapping *)

Section WrapFacts.
Import Imports NextjsFramework.

Lemma no_dollar_app (a b : str) :
  no_dollar (a ++ b) = no_dollar a && no_dollar b.
Proof. apply forallb_app. Qed.

Lemma replace_str_no_dollar (s pat template : str) :
  occurs_in pat s ->
  no_dollar template = true ->
  exists before after,
    s = before ++ pat ++ after
    /\ replace_str s pat template = before ++ template ++ after.
Proof.
  intros O N. apply includes_occurs in O. unfold includes in O.
  unfold replace_str. destruct (find pat s) as [i|] eqn:F; [|discriminate].
  rewrite expand_no_dollar_id by exact N.
  exists (firstn i s), (skipn (i + length pat) s).
  split; [now apply find_split|reflexivity].
Qed.

Lemma matched_occurs (s : str) (res : mresult) : occurs_in (matched s res) s.
Proof.
  exists (before_match s res), (after_match s res). apply match_decomp.
Qed.

(** Where the captured texts have no dollar sign, the React wrap puts them
    into the output as they are, with the provider markup around the root
    element. *)
Lemma react_wrap_keeps_inner (entryFile content : str) (m0 : mresult) :
  includes (lit "SolanaProvider") content = false ->
  ReactFramework.appRenderMatch (ReactFramework.with_import content)
  = Some m0 ->
  no_dollar (group 1 m0 ++ group 2 m0 ++ group 3 m0) = true ->
  exists before after,
    written (ReactFramework.updateEntryPoint entryFile content)
    = Some (before ++ group 1 m0 ++ lit "<SolanaProvider>
  " ++ group 2 m0 ++ lit "
</SolanaProvider>" ++ group 3 m0 ++ after).
Proof.
  intros G M N. unfold ReactFramework.updateEntryPoint. rewrite G, M.
  cbn [written write].
  rewrite !no_dollar_app in N.
  apply andb_prop in N as [N1 N]. apply andb_prop in N as [N2 N3].
  destruct (replace_str_no_dollar
              (ReactFramework.with_import content)
              (matched (ReactFramework.with_import content) m0)
              (group 1 m0 ++ lit "<SolanaProvider>
  " ++ group 2 m0 ++ lit "
</SolanaProvider>" ++ group 3 m0))
    as (before & after & _ & ->).
  - apply matched_occurs.
  - rewrite !no_dollar_app, N1, N2, N3. reflexivity.
  - exists before, after. now rewrite <- !app_assoc.
Qed.

(** The same for the body pattern of the layout updater. *)
Lemma layout_wrap_keeps_inner (p : provider) (u : str) (m0 : mresult) :
  exec BODY_RE u = Some m0 ->
  no_dollar (name p) = true ->
  no_dollar (group 1 m0 ++ group 2 m0 ++ group 3 m0 ++ group 4 m0
             ++ group 5 m0) = true ->
  exists before after,
    wrap_children p u
    = inl (before ++ group 1 m0 ++ group 2 m0 ++ open_tag p ++ group 3 m0
           ++ close_tag p ++ group 4 m0 ++ group 5 m0 ++ after).
Proof.
  intros M Np N. unfold wrap_children. rewrite M.
  rewrite !no_dollar_app in N.
  apply andb_prop in N as [N1 N]. apply andb_prop in N as [N2 N].
  apply andb_prop in N as [N3 N]. apply andb_prop in N as [N4 N5].
  destruct (replace_str_no_dollar u (matched u m0)
              (group 1 m0 ++ group 2 m0 ++ open_tag p ++ group 3 m0
               ++ close_tag p ++ group 4 m0 ++ group 5 m0))
    as (before & after & _ & ->).
  - apply matched_occurs.
  - unfold open_tag, close_tag.
    rewrite !no_dollar_app, N1, N2, N3, N4, N5, Np. reflexivity.
  - exists before, after. now rewrite <- !app_assoc.
Qed.

End WrapFacts.

Section WrapClaims.
Import Imports NextjsFramework.

(** C4 on a failing input.  The wrapped text is handed to [replace] as a
    replacement string, so a dollar sequence in the captured text is
    rewritten: the root element [App price='$$5'] of the React entry point
    comes out as [App price='$5'], and the paragraph before the children
    of the layout loses a dollar sign in the same way.  Neither captured
    text occurs in the output. *)
Theorem C4_wrap_rewrites_dollar_sequences :
  (exists m0 out,
      ReactFramework.appRenderMatch
        (ReactFramework.with_import (lit "import App from './App';
ReactDOM.render(<App price='$$5' />, document.getElementById('root'));
")) = Some m0
      /\ group 2 m0 = lit "App price='$$5'"
      /\ written (ReactFramework.updateEntryPoint (lit "src/index.js")
                    (lit "import App from './App';
ReactDOM.render(<App price='$$5' />, document.getElementById('root'));
")) = Some out
      /\ includes (group 2 m0) out = false
      /\ includes (lit "App price='$5'") out = true)
  /\ (exists m0 out,
        exec BODY_RE
          (layout_with_import appkit
             (lit "export default function RootLayout({ children }) {
  return (
    <html>
      <body><p>Price: $$5</p>{children}</body>
    </html>
  );
}
")) = Some m0
        /\ group 2 m0 = lit "<p>Price: $$5</p>"
        /\ written (updateAppRouterEntryPoint (Some true)
                      (lit "app/layout.tsx")
                      (lit "export default function RootLayout({ children }) {
  return (
    <html>
      <body><p>Price: $$5</p>{children}</body>
    </html>
  );
}
")) = Some out
        /\ includes (group 2 m0) out = false
        /\ includes (lit "<p>Price: $5</p>") out = true).
Proof.
  split; eexists _, _; vm_compute; repeat split.
Qed.

End WrapClaims.

(** ** The matcher and the runs of a pattern *)

Section MatcherFacts.

Lemma or_else_Some {A} (x y : option A) (v : A) :
  or_else x y = Some v -> x = Some v \/ y = Some v.
Proof. destruct x; simpl; auto. Qed.


Lemma star_loop_sound (g : bool) (r1 : regex)
  (k : mstate -> option mstate) (res : mstate) :
  (forall k' s, m r1 k' s = Some res ->
                exists s', run r1 s s' /\ k' s' = Some res) ->
  forall fuel s0,
    star_loop (m r1) g k fuel s0 = Some res ->
    exists s', run (Star g r1) s0 s' /\ k s' = Some res.
Proof.
  intros IH. induction fuel as [|fuel IHf]; intros s0 H; simpl in H.
  - exists s0. split; [constructor|exact H].
  - assert (Again :
      m r1 (fun s1 => if length (rest s1) <? length (rest s0)
                      then star_loop (m r1) g k fuel s1 else None) s0
      = Some res ->
      exists s', run (Star g r1) s0 s' /\ k s' = Some res).
    { intros A. apply IH in A as (s1 & R1 & K1).
      destruct (length (rest s1) <? length (rest s0)) eqn:P; [|discriminate].
      apply Nat.ltb_lt in P. apply IHf in K1 as (s' & R & K).
      exists s'. split; [|exact K]. now apply run_star_cons with (s1 := s1). }
    assert (Exit : k s0 = Some res ->
                   exists s', run (Star g r1) s0 s' /\ k s' = Some res).
    { intros K. exists s0. split; [constructor|exact K]. }
    destruct g; apply or_else_Some in H as [H|H]; auto.
Qed.

(** Soundness: what the matcher returns comes from a run of the pattern
    followed by the continuation. *)
Lemma m_sound (r : regex) :
  forall k s res,
    m r k s = Some res -> exists s', run r s s' /\ k s' = Some res.
Proof.
  induction r as [|c|p|r1 IH1 r2 IH2|r1 IH1 r2 IH2|g r1 IH1|i r1 IH1|ml|ml];
    intros k s res H; simpl in H.
  - exists s. split; [constructor|exact H].
  - destruct (rest s) as [|x t] eqn:E; [discriminate|].
    destruct (Ascii.eqb x c) eqn:X; [|discriminate].
    apply Ascii.eqb_eq in X. subst x.
    exists (advance s c t). split; [now constructor|exact H].
  - destruct (rest s) as [|x t] eqn:E; [discriminate|].
    destruct (p x) eqn:X; [|discriminate].
    exists (advance s x t). split; [now constructor|exact H].
  - apply IH1 in H as (s1 & R1 & H). apply IH2 in H as (s2 & R2 & H).
    exists s2. split; [now apply run_seq with (s1 := s1)|exact H].
  - apply or_else_Some in H as [H|H].
    + apply IH1 in H as (s' & R & H). exists s'. split; [now constructor|exact H].
    + apply IH2 in H as (s' & R & H). exists s'.
      split; [now apply run_alt_r|exact H].
  - apply star_loop_sound in H; [exact H|]. intros k' s0. apply IH1.
  - apply IH1 in H as (s1 & R & H). exists (close_group i s s1).
    split; [now constructor|exact H].
  - destruct (at_bol ml s) eqn:B; [|discriminate].
    exists s. split; [now constructor|exact H].
  - destruct (at_eol ml s) eqn:B; [|discriminate].
    exists s. split; [now constructor|exact H].
Qed.



(** A run consumes a prefix of the input. *)
Lemma run_consumes (r : regex) (s s' : mstate) :
  run r s s' -> exists w, rest s = w ++ rest s'.
Proof.
  induction 1.
  - now exists [].
  - exists [c]. simpl. exact H.
  - exists [x]. simpl. exact H.
  - destruct IHrun1 as (w1 & ->). destruct IHrun2 as (w2 & ->).
    exists (w1 ++ w2). now rewrite app_assoc.
  - exact IHrun.
  - exact IHrun.
  - now exists [].
  - destruct IHrun1 as (w1 & ->). destruct IHrun2 as (w2 & ->).
    exists (w1 ++ w2). now rewrite app_assoc.
  - exact IHrun.
  - now exists [].
  - now exists [].
Qed.

Lemma consumed_app (s s' : mstate) (w : str) :
  rest s = w ++ rest s' -> consumed s s' = w.
Proof.
  intros E. unfold consumed. rewrite E, length_app.
  replace (length w + length (rest s') - length (rest s')) with (length w)
    by lia.
  now rewrite firstn_app, firstn_all, Nat.sub_diag, app_nil_r.
Qed.

Lemma char_before_skipn (content : str) (i : nat) (c : ascii) (t : str) :
  skipn i content = c :: t -> char_before content (S i) = Some c.
Proof.
  revert i; induction content as [|x content IH]; intros [|i] H; simpl in *;
    try discriminate.
  - now injection H as -> _.
  - destruct i; simpl in *.
    + destruct content; [discriminate|]. now injection H as -> _.
    + now apply (IH (S i)).
Qed.

Lemma skipn_S_tail (content : str) (i : nat) (c : ascii) (t : str) :
  skipn i content = c :: t -> skipn (S i) content = t.
Proof.
  revert i; induction content as [|x content IH]; intros [|i] H; simpl in *;
    try discriminate.
  - now injection H.
  - now apply IH.
Qed.

(** [exec_from], started at offset [i] of [content], answers with a run
    from some offset [j >= i]. *)
Lemma exec_from_sound (r : regex) (content : str) (k : nat) :
  forall i res,
    k = length (skipn i content) ->
    i <= length content ->
    exec_from r (char_before content i) (skipn i content) i = Some res ->
    exists s',
      run r (start_state content (index res)) s'
      /\ i <= index res <= length content
      /\ groups res = caps s'
      /\ skipn (index res) content = matched content res ++ rest s'.
Proof.
  assert (Here : forall i s1,
             i <= length content ->
             run r (start_state content i) s1 ->
             exists s',
               run r (start_state content i) s'
               /\ i <= i <= length content
               /\ caps s1 = caps s'
               /\ skipn i content
                  = firstn (length (skipn i content) - length (rest s1))
                      (skipn i content) ++ rest s').
  { intros i s1 Hi R. exists s1.
    split; [exact R|]. split; [lia|]. split; [reflexivity|].
    destruct (run_consumes _ _ _ R) as (w & Hw). cbn [rest start_state] in Hw.
    rewrite Hw at 2 3. rewrite Hw at 1. rewrite length_app.
    replace (length w + length (rest s1) - length (rest s1))
      with (length w) by lia.
    now rewrite firstn_app, firstn_all, Nat.sub_diag, app_nil_r. }
  induction k as [|k IH]; intros i res Hk Hi H.
  - destruct (skipn i content) as [|c t] eqn:E; [|discriminate].
    simpl in H.
    destruct (m r Some _) as [s'|] eqn:M; [|discriminate].
    injection H as <-. cbn [index mlen groups]. unfold matched.
    cbn [index mlen].
    apply m_sound in M as (s1 & R & K). injection K as <-.
    rewrite <- E in R. fold (start_state content i) in R.
    destruct (Here i s1 Hi R) as (s' & R' & B & G & Mt).
    exists s'. rewrite E in Mt. cbn [length] in Mt. rewrite E.
    repeat split; try assumption; lia.
  - destruct (skipn i content) as [|c t] eqn:E; [discriminate|].
    assert (Hlt : i < length content).
    { destruct (Nat.le_gt_cases (length content) i) as [L|L]; [|exact L].
      rewrite skipn_all2 in E by exact L. discriminate. }
    simpl in H.
    destruct (m r Some _) as [s'|] eqn:M.
    + injection H as <-. cbn [index mlen groups]. unfold matched.
      cbn [index mlen].
      apply m_sound in M as (s1 & R & K). injection K as <-.
      rewrite <- E in R. fold (start_state content i) in R.
      destruct (Here i s1 Hi R) as (s' & R' & B & G & Mt).
      exists s'. rewrite E in Mt. rewrite E.
      repeat split; try assumption; lia.
    + rewrite <- (char_before_skipn _ _ _ _ E) in H.
      rewrite <- (skipn_S_tail _ _ _ _ E) in H.
      apply IH in H.
      * destruct H as (s' & R & B & G & Mt). exists s'.
        repeat split; try assumption; lia.
      * rewrite (skipn_S_tail _ _ _ _ E). simpl in Hk. lia.
      * lia.
Qed.

Lemma exec_sound (r : regex) (content : str) (res : mresult) :
  exec r content = Some res ->
  exists s',
    run r (start_state content (index res)) s'
    /\ index res <= length content
    /\ groups res = caps s'
    /\ skipn (index res) content = matched content res ++ rest s'.
Proof.
  unfold exec, exec_at. simpl (length content <? 0).
  intros H.
  destruct (exec_from_sound r content (length (skipn 0 content)) 0 res
              eq_refl (Nat.le_0_l _) H) as (s' & R & B & G & M).
  exists s'. repeat split; try assumption; lia.
Qed.



End MatcherFacts.

(** ** Shapes of matched texts *)

Section ShapeFacts.

Lemma run_caps (r : regex) (s s' : mstate) :
  run r s s' -> group_free r = true -> caps s' = caps s.
Proof.
  induction 1; simpl; intros G; try reflexivity; try discriminate.
  - apply andb_prop in G as [G1 G2]. now rewrite IHrun2, IHrun1.
  - apply andb_prop in G as [G1 G2]. auto.
  - apply andb_prop in G as [G1 G2]. auto.
  - now rewrite IHrun2, IHrun1.
Qed.

Lemma shape_weaken (r : regex) (P Q : str -> Prop) :
  (forall w, P w -> Q w) -> shape r P -> shape r Q.
Proof.
  intros I S s s' R. destruct (S s s' R) as (w & E & Pw). exists w. auto.
Qed.

Lemma shape_chr (c : ascii) : shape (Chr c) (eq [c]).
Proof.
  intros s s' R. inversion R; subst. exists [c]. split; [|reflexivity].
  simpl. assumption.
Qed.

Lemma shape_cls (p : ascii -> bool) :
  shape (Cls p) (fun w => exists x, w = [x] /\ p x = true).
Proof.
  intros s s' R. inversion R; subst. exists [x]. split; [simpl; assumption|].
  now exists x.
Qed.

Lemma shape_eps : shape Eps (eq []).
Proof. intros s s' R. inversion R; subst. now exists []. Qed.

Lemma shape_eol (ml : bool) : shape (Eol ml) (eq []).
Proof. intros s s' R. inversion R; subst. now exists []. Qed.

Lemma shape_bol (ml : bool) : shape (Bol ml) (eq []).
Proof. intros s s' R. inversion R; subst. now exists []. Qed.

Lemma shape_seq (r1 r2 : regex) (P1 P2 : str -> Prop) :
  shape r1 P1 -> shape r2 P2 ->
  shape (Seq r1 r2) (fun w => exists u v, w = u ++ v /\ P1 u /\ P2 v).
Proof.
  intros S1 S2 s s' R. inversion R as [| | |? ? ? s1 ? R1 R2| | | | | | |]; subst.
  destruct (S1 _ _ R1) as (u & E1 & Pu). destruct (S2 _ _ R2) as (v & E2 & Pv).
  exists (u ++ v). split; [now rewrite E1, E2, app_assoc|]. now exists u, v.
Qed.

Lemma shape_alt (r1 r2 : regex) (P1 P2 : str -> Prop) :
  shape r1 P1 -> shape r2 P2 -> shape (Alt r1 r2) (fun w => P1 w \/ P2 w).
Proof.
  intros S1 S2 s s' R.
  inversion R as [| | | |? ? ? ? R1|? ? ? ? R2| | | | |]; subst.
  - destruct (S1 _ _ R1) as (w & E & Pw). exists w. auto.
  - destruct (S2 _ _ R2) as (w & E & Pw). exists w. auto.
Qed.

Lemma shape_grp (i : nat) (r : regex) (P : str -> Prop) :
  shape r P -> shape (Grp i r) P.
Proof.
  intros S s s' R. inversion R as [| | | | | | | |? ? ? s1 R1| |]; subst.
  destruct (S _ _ R1) as (w & E & Pw). exists w. auto.
Qed.

Lemma shape_star_cls (g : bool) (p : ascii -> bool) :
  shape (Star g (Cls p)) (fun w => forallb p w = true).
Proof.
  intros s s' R. remember (Star g (Cls p)) as r eqn:E.
  induction R; try discriminate; injection E as -> ->.
  - now exists [].
  - destruct (IHR2 eq_refl) as (w & E & Pw).
    inversion R1 as [| |? x ? t Hr Hp| | | | | | | |]; subst.
    exists (x :: w). split.
    + simpl. cbn [rest advance] in E. now rewrite <- E.
    + simpl. now rewrite Hp, Pw.
Qed.

Lemma shape_Lit (l : str) : shape (Lit l) (eq l).
Proof.
  induction l as [|c l IH].
  - apply shape_eps.
  - destruct l as [|d l]; [apply shape_chr|].
    change (Lit (c :: d :: l)) with (Seq (Chr c) (Lit (d :: l))).
    eapply shape_weaken; [|apply shape_seq; [apply shape_chr|exact IH]].
    intros w (u & v & -> & <- & <-). reflexivity.
Qed.








Lemma skipn_app_exact (a b : str) : skipn (length a) (a ++ b) = b.
Proof.
  rewrite skipn_app, skipn_all, Nat.sub_diag. reflexivity.
Qed.


End ShapeFacts.

(** ** The patterns of updateNextConfig *)


Ltac shape_step :=
  match goal with
  | |- shape (Lit _) _ => apply shape_Lit
  | |- shape (Seq _ _) _ => apply shape_seq
  | |- shape (Alt _ _) _ => apply shape_alt
  | |- shape (Chr _) _ => apply shape_chr
  | |- shape (Cls _) _ => apply shape_cls
  | |- shape (Star _ (Cls _)) _ => apply shape_star_cls
  | |- shape (Grp _ _) _ => apply shape_grp
  | |- shape Eps _ => apply shape_eps
  | |- shape (Eol _) _ => apply shape_eol
  | |- shape (Bol _) _ => apply shape_bol
  end.


Section NextConfigPatterns.
Import NextjsFramework.

Lemma group_free_Lit (l : str) : group_free (Lit l) = true.
Proof.
  induction l as [|c l IH]; [reflexivity|].
  destruct l; [reflexivity|]. simpl in *. exact IH.
Qed.








End NextConfigPatterns.

(** ** Inserting a text into a file *)

Section InsertionFacts.

Lemma clash_apart (x y : str) :
  clash x y = true -> forall x' y', x ++ x' <> y ++ y'.
Proof.
  revert y; induction x as [|c x IH]; intros [|d y] H x' y' E;
    simpl in H; try discriminate.
  simpl in E. injection E as -> E.
  rewrite Ascii.eqb_refl in H. now apply (IH y H x' y').
Qed.

Lemma no_suffix_starts_spec (n t : str) (i : nat) :
  no_suffix_starts n t = true -> 0 < i < length n ->
  clash (skipn i n) t = true.
Proof.
  unfold no_suffix_starts. intros H Hi.
  rewrite forallb_forall in H. apply H. apply in_seq. lia.
Qed.






(** A needle that occurs in the file occurs in it after the insertion,
    unless it straddles the insertion point; [bp] is what is known of the
    text behind that point. *)
Lemma includes_insert_rev (n a ins bp b' : str) :
  no_suffix_starts n bp = true ->
  includes n (a ++ bp ++ b') = true ->
  includes n (a ++ ins ++ bp ++ b') = true.
Proof.
  intros S H. apply includes_occurs in H as (x & y & E).
  apply app_eq_app in E as (l & [[Ea Eb] | [Ex Eb]]).
  - symmetry in Eb. apply app_eq_app in Eb as (l2 & [[El Ey] | [En Ey]]).
    + rewrite Ea, El, <- !app_assoc. apply includes_mid.
    + destruct l2 as [|c l2].
      * rewrite app_nil_r in En. rewrite Ea, <- En, <- !app_assoc.
        apply includes_mid.
      * destruct l as [|d l].
        -- simpl in En. rewrite Ey, <- En, (app_assoc a ins).
           apply includes_mid.
        -- exfalso.
           assert (J : 0 < length (d :: l) < length n).
           { rewrite En, length_app. simpl. lia. }
           apply (clash_apart _ _ (no_suffix_starts_spec _ bp _ S J) y b').
           rewrite En, skipn_app_exact. symmetry. exact Ey.
  - rewrite Eb, (app_assoc ins), (app_assoc a). apply includes_mid.
Qed.

End InsertionFacts.

(** ** Anchor texts across an insertion *)

Section AnchorFacts.












End AnchorFacts.

(** ** Step two of updateNextConfig is an insertion *)

Section WebpackFacts.
Import NextjsFramework.

Lemma run_seq_inv (r1 r2 : regex) (s s' : mstate) :
  run (Seq r1 r2) s s' -> exists s1, run r1 s s1 /\ run r2 s1 s'.
Proof.
  intros R. inversion R as [| | |? ? ? s1 ? R1 R2| | | | | | |]; subst.
  now exists s1.
Qed.

Lemma run_grp_inv (i : nat) (r : regex) (s s' : mstate) :
  run (Grp i r) s s' -> exists s1, run r s s1 /\ s' = close_group i s s1.
Proof.
  intros R. inversion R as [| | | | | | | |? ? ? s1 R1| |]; subst.
  now exists s1.
Qed.

Lemma run_eol_inv (ml : bool) (s s' : mstate) : run (Eol ml) s s' -> s' = s.
Proof. intros R. now inversion R. Qed.

(** A run of a group-free pattern with a shape, with what it does to the
    state. *)
Lemma run_plain (r : regex) (P : str -> Prop) (s s' : mstate) :
  shape r P -> group_free r = true -> run r s s' ->
  exists w, rest s = w ++ rest s' /\ P w /\ caps s' = caps s.
Proof.
  intros S G R. destruct (S s s' R) as (w & E & Pw).
  exists w. repeat split; try assumption. now apply run_caps with (r := r).
Qed.

Lemma run_close (l : str) (s s' : mstate) :
  run (seqs [Lit l; Grp 1 ws_star; Eol false]) s s' ->
  exists w, rest s = l ++ w ++ rest s' /\ caps s' = (1, w) :: caps s.
Proof.
  cbn [seqs]. intros R.
  apply run_seq_inv in R as (s1 & R1 & R).
  apply run_seq_inv in R as (s2 & R2 & R3).
  apply run_eol_inv in R3. subst s'.
  apply run_grp_inv in R2 as (s3 & R2 & ->).
  destruct (run_plain _ _ _ _ (shape_Lit l) (group_free_Lit l) R1)
    as (w1 & E1 & <- & C1).
  destruct (run_plain _ _ _ _ (shape_star_cls true is_ws) eq_refl R2)
    as (w & E2 & _ & C2).
  exists w. cbn [rest caps close_group]. split.
  - now rewrite E1, E2.
  - now rewrite (consumed_app s1 s3 w E2), C2, C1.
Qed.

Lemma exec_close (l : str) (content : str) (res : mresult) :
  exec (seqs [Lit l; Grp 1 ws_star; Eol false]) content = Some res ->
  matched content res = l ++ group 1 res.
Proof.
  intros H. apply exec_sound in H as (s' & R & _ & G & M).
  apply run_close in R as (w & E & C). cbn [rest caps start_state] in E, C.
  rewrite E, app_assoc in M. apply app_inv_tail in M.
  unfold group. rewrite G, C. simpl. now symmetry.
Qed.

Lemma webpack_head_shape :
  shape webpack_head (fun w => exists r, w = lit "webpack" ++ r).
Proof.
  unfold webpack_head. cbn [seqs]. unfold L, ws_star, ws, not_chr.
  eapply shape_weaken; [|repeat shape_step]. cbv beta.
  intros w (u1 & v1 & -> & <- & _). now exists v1.
Qed.

Lemma webpack_head_group_free : group_free webpack_head = true.
Proof.
  unfold webpack_head. cbn [seqs]. unfold L.
  cbn [group_free]. now rewrite !group_free_Lit.
Qed.

Lemma exec_webpack (content : str) (res : mresult) :
  exec WEBPACK_RE content = Some res ->
  matched content res = group 1 res ++ group 2 res
  /\ group 2 res = lit "return config;"
  /\ exists r, group 1 res = lit "webpack" ++ r.
Proof.
  intros H. apply exec_sound in H as (s' & R & _ & G & M).
  change WEBPACK_RE
    with (Seq (Grp 1 webpack_head) (Grp 2 (Lit (lit "return config;")))) in R.
  apply run_seq_inv in R as (s1 & R1 & R2).
  apply run_grp_inv in R1 as (s2 & R1 & ->).
  apply run_grp_inv in R2 as (s3 & R2 & ->).
  destruct (run_plain _ _ _ _ webpack_head_shape webpack_head_group_free R1)
    as (g1 & E1 & (r & Hg1) & C1).
  destruct (run_plain _ _ _ _ (shape_Lit (lit "return config;"))
              (group_free_Lit _) R2) as (g2 & E2 & <- & C2).
  pose proof (consumed_app (start_state content (index res)) s2 g1 E1) as K1.
  pose proof (consumed_app (close_group 1 (start_state content (index res)) s2)
                s3 _ E2) as K2.
  cbn [rest caps close_group start_state] in *.
  rewrite K2 in G. rewrite K1 in C2.
  rewrite E1, E2, app_assoc in M. apply app_inv_tail in M.
  unfold group. rewrite G, C2. cbn.
  split; [now symmetry|]. split; [reflexivity|]. now exists r.
Qed.

Lemma expand_close (env : subst_env) (tail g : str) :
  no_dollar tail = true ->
  se_captures env = [g] ->
  expand env (webpackConfig ++ nl ++ tail ++ lit "$1")
  = webpack_insert ++ tail ++ g.
Proof.
  intros N C. unfold webpack_insert.
  rewrite (app_assoc webpackConfig), (app_assoc (webpackConfig ++ nl)).
  rewrite expand_no_dollar.
  - rewrite <- !app_assoc. do 3 f_equal.
    cbn. rewrite C. cbn. apply app_nil_r.
  - rewrite no_dollar_app, N. reflexivity.
Qed.

Lemma expand_externals (env : subst_env) (g1 g2 : str) :
  se_captures env = [g1; g2] ->
  expand env externals_template = g1 ++ externals_insert ++ g2.
Proof.
  intros C.
  change externals_template
    with ("$"%char :: "1"%char :: externals_insert ++ lit "$2").
  rewrite expand_cons. cbn -[expand externals_insert]. rewrite C.
  cbn -[expand externals_insert].
  change (match externals_insert ++ lit "$2" with
          | [] => capture [g1; g2] 1 ++ expand env (externals_insert ++ lit "$2")
          | d2 :: t3 => _ end)
    with (capture [g1; g2] 1 ++ expand env (externals_insert ++ lit "$2")).
  rewrite expand_no_dollar by reflexivity.
  cbn. rewrite C. cbn. now rewrite app_nil_r.
Qed.

End WebpackFacts.

Section WebpackStep.
Import NextjsFramework.

(** Step two either leaves its input alone or inserts one of two fixed
    texts at one place: the webpack function in front of a closing brace,
    or the externals line in front of [return config;] with the word
    [webpack] to the left of it. *)
Lemma add_webpack_cases (u : str) :
  add_webpack u = u
  \/ (exists a b',
        u = a ++ lit "}" ++ b'
        /\ add_webpack u = a ++ webpack_insert ++ lit "}" ++ b')
  \/ (exists a b',
        u = a ++ lit "return config;" ++ b'
        /\ add_webpack u = a ++ externals_insert ++ lit "return config;" ++ b'
        /\ includes (lit "webpack") a = true).
Proof.
  unfold add_webpack.
  destruct (includes (lit "webpack") u) eqn:W; cbn [negb].
  - destruct (includes (lit "externals") u) eqn:X; cbn [negb];
      [now left|].
    unfold replace_tpl, replace_fn.
    destruct (exec WEBPACK_RE u) as [res|] eqn:E; [|now left].
    destruct (exec_webpack u res E) as (M & G2 & r & G1).
    right; right.
    exists (before_match u res ++ group 1 res), (after_match u res).
    rewrite (expand_externals _ (group 1 res) (group 2 res)) by reflexivity.
    rewrite G2. repeat split.
    + rewrite (match_decomp u res) at 1. rewrite M, G2.
      now rewrite <- !app_assoc.
    + now rewrite <- !app_assoc.
    + apply includes_app_r. rewrite G1. apply includes_here.
  - destruct (test CLOSE_SEMI_TEST_RE u).
    + unfold replace_tpl, replace_fn.
      destruct (exec CLOSE_SEMI_RE u) as [res|] eqn:E; [|now left].
      pose proof (exec_close (lit "};") u res E) as M.
      right; left.
      exists (before_match u res), (lit ";" ++ group 1 res ++ after_match u res).
      rewrite (expand_close _ (lit "};") (group 1 res)) by reflexivity.
      split.
      * rewrite (match_decomp u res) at 1. rewrite M.
        now rewrite <- !app_assoc.
      * now rewrite <- !app_assoc.
    + destruct (test CLOSE_TEST_RE u); [|now left].
      unfold replace_tpl, replace_fn.
      destruct (exec CLOSE_RE u) as [res|] eqn:E; [|now left].
      pose proof (exec_close (lit "}") u res E) as M.
      right; left.
      exists (before_match u res), (group 1 res ++ after_match u res).
      rewrite (expand_close _ (lit "}") (group 1 res)) by reflexivity.
      split.
      * rewrite (match_decomp u res) at 1. rewrite M.
        now rewrite <- !app_assoc.
      * now rewrite <- !app_assoc.
Qed.



(** Step two keeps the package entry that step one has written. *)
Lemma add_webpack_keeps_entry (u : str) :
  includes PACKAGE_ENTRY u = true ->
  includes PACKAGE_ENTRY (add_webpack u) = true.
Proof.
  intros H.
  destruct (add_webpack_cases u)
    as [E|[(a & b' & U & E)|(a & b' & U & E & _)]]; rewrite E.
  - exact H.
  - rewrite U in H. now apply includes_insert_rev.
  - rewrite U in H. now apply includes_insert_rev.
Qed.

Lemma entry_has_marker (u : str) :
  includes PACKAGE_ENTRY u = true -> includes MARKER u = true.
Proof.
  intros H. apply includes_occurs in H as (x & y & ->).
  change PACKAGE_ENTRY with (lit "'" ++ MARKER ++ lit "-base'").
  rewrite <- !app_assoc. apply includes_app_r, includes_mid.
Qed.

End WebpackStep.

(** ** Step one of updateNextConfig and the rerun *)

Section TranspileStep.
Import NextjsFramework.

(** Step one either writes the package entry or finds its anchor word
    without a match for the anchor's pattern and returns its input. *)
Lemma add_transpile_cases (F : str) :
  includes PACKAGE_ENTRY (add_transpile F) = true
  \/ (add_transpile F = F /\ anchor_unmatched F).
Proof.
  unfold add_transpile, anchor_unmatched.
  destruct (includes (lit "transpilePackages") F) eqn:T.
  { unfold replace_fn.
    destruct (exec TRANSPILE_RE F) as [res|] eqn:E; [left|right; split; [reflexivity|now left]].
    apply includes_app_r, includes_app_l. unfold transpile_replacer.
    destruct (trim (group 1 res)) as [|c l]; [reflexivity|].
    apply includes_app_r. rewrite app_assoc. apply includes_app_r.
    reflexivity. }
  destruct (includes (lit "module.exports") F) eqn:M.
  { unfold replace_tpl, replace_fn.
    destruct (exec MODULE_EXPORTS_RE F) as [res|] eqn:E;
      [left|right; split; [reflexivity|now right; left]].
    rewrite expand_no_dollar_id by reflexivity.
    apply includes_app_r, includes_app_l. reflexivity. }
  destruct (includes (lit "export default") F) eqn:X.
  { unfold replace_tpl, replace_fn.
    destruct (exec EXPORT_DEFAULT_RE F) as [res|] eqn:E;
      [left|right; split; [reflexivity|now right; right]].
    rewrite expand_no_dollar_id by reflexivity.
    apply includes_app_r, includes_app_l. reflexivity. }
  left. reflexivity.
Qed.









End TranspileStep.

(** ** Running a patcher twice *)

Section RerunFacts.


(** A guarded patcher whose writes make the guard hold or repeat the
    content: the second run stops at the guard or writes the same bytes. *)
Lemma guarded_rerun (P : str -> effect) (g : str -> bool) :
  (forall c, g c = true -> written (P c) = None) ->
  (forall c c', written (P c) = Some c' -> c' = c \/ g c' = true) ->
  forall F,
    apply_patch P (apply_patch P F) = apply_patch P F
    /\ (g F = true -> written (P F) = None)
    /\ (forall G, written (P F) = Some G ->
                  g G = true /\ written (P G) = None
                  \/ written (P G) = Some G).
Proof.
  intros Hg Hw F. split; [|split].
  - now apply (guarded_idempotent P g Hg).
  - apply Hg.
  - intros G W. destruct (Hw _ _ W) as [-> | M].
    + now right.
    + left. split; [exact M|]. now apply Hg.
Qed.

End RerunFacts.

(** ** What the layout updater writes *)

Section LayoutMarkerFacts.
Import Imports NextjsFramework.





End LayoutMarkerFacts.

(** ** Idempotence of the patchers *)

Section IdempotenceClaims.
Import Imports NextjsFramework.



End IdempotenceClaims.

(** ** The text of a placeholder *)

Section PlaceholderFacts.
Import TemplateEngine.

Lemma exec_all_sound (r : regex) (s : str) :
  forall fuel from res,
    In res (exec_all fuel r s from) ->
    exists s',
      run r (start_state s (index res)) s'
      /\ groups res = caps s'
      /\ skipn (index res) s = matched s res ++ rest s'.
Proof.
  induction fuel as [|fuel IH]; intros from res H; simpl in H;
    [contradiction|].
  destruct (exec_at r s from) as [res0|] eqn:E; [|contradiction].
  destruct H as [<-|H]; [|now apply IH in H].
  unfold exec_at in E.
  destruct (length s <? from) eqn:B; [discriminate|].
  apply Nat.ltb_ge in B.
  destruct (exec_from_sound r s (length (skipn from s)) from res0
              eq_refl B E) as (s' & R & _ & G & M).
  now exists s'.
Qed.

(** Every match of the placeholder pattern is two opening braces, the
    captured text and two closing braces. *)
Lemma placeholder_text (template : str) (res : mresult) :
  In res (match_all TEMPLATE_PLACEHOLDER_REGEX template) ->
  matched template res = lit "{{" ++ group 1 res ++ lit "}}".
Proof.
  intros H. apply exec_all_sound in H as (s' & R & G & M).
  unfold TEMPLATE_PLACEHOLDER_REGEX, L, dot in R. cbn [seqs] in R.
  apply run_seq_inv in R as (s1 & R1 & R).
  apply run_seq_inv in R as (s2 & R2 & R3).
  apply run_grp_inv in R2 as (s3 & R2 & ->).
  destruct (run_plain _ _ _ _ (shape_Lit (lit "{{")) (group_free_Lit _) R1)
    as (w1 & E1 & <- & C1).
  destruct (run_plain _ _ _ _ (shape_star_cls false _) eq_refl R2)
    as (g & E2 & _ & C2).
  destruct (run_plain _ _ _ _ (shape_Lit (lit "}}")) (group_free_Lit _) R3)
    as (w3 & E3 & <- & C3).
  pose proof (consumed_app s1 s3 g E2) as K.
  cbn [rest caps close_group start_state] in *.
  rewrite K in C3.
  rewrite E1, E2, E3 in M.
  change (lit "{{" ++ g ++ lit "}}" ++ rest s')
    with (lit "{{" ++ (g ++ lit "}}" ++ rest s')) in M.
  assert (M' : (lit "{{" ++ g ++ lit "}}") ++ rest s'
               = matched template res ++ rest s').
  { rewrite <- M. now rewrite <- !app_assoc. }
  apply app_inv_tail in M'.
  unfold group. rewrite G, C3. cbn. now symmetry.
Qed.

End PlaceholderFacts.

Section PlaceholderClaims.
Import TemplateEngine.

(** C3. Unresolved-placeholder preservation, in every runtime: for
    every template and context, a placeholder whose dotted path meets
    [undefined] or [null] while segments remain is replaced by its own
    matched text, the captured path between its two pairs of braces, so
    [processTemplate] returns a text in which that text stands unless the
    lookup of another placeholder throws; when this holds of every
    placeholder the output is the template itself; and
    [processTemplate("{{a.b.c}}", {a: {}})] returns ["{{a.b.c}}"] in every
    runtime in which a plain object inherits no member [b]. *)
Theorem C3_unresolved_placeholder_preserved :
  (forall rt template context res,
      In res (match_all TEMPLATE_PLACEHOLDER_REGEX template) ->
      stops_mid_walk rt context (placeholder_path res) ->
      matched template res = lit "{{" ++ group 1 res ++ lit "}}"
      /\ getValueFromContext rt (trim (group 1 res)) context = Ok None
      /\ template_replacer rt template context res
         = Ok (lit "{{" ++ group 1 res ++ lit "}}")
      /\ match processTemplate rt template context with
         | Ok out => occurs_in (lit "{{" ++ group 1 res ++ lit "}}") out
         | Throw e =>
             exists res',
               In res' (match_all TEMPLATE_PLACEHOLDER_REGEX template)
               /\ template_replacer rt template context res' = Throw e
         end)
  /\ (forall rt template context,
        (forall res,
            In res (match_all TEMPLATE_PLACEHOLDER_REGEX template) ->
            stops_mid_walk rt context (placeholder_path res)) ->
        processTemplate rt template context = Ok template)
  /\ (forall rt,
        inherited rt (JObj []) (lit "b") = Ok JUndefined ->
        processTemplate rt (lit "{{a.b.c}}") (JObj [(lit "a", JObj [])])
        = Ok (lit "{{a.b.c}}"))
  /\ processTemplate Runtime.standard (lit "{{a.b.c}}")
       (JObj [(lit "a", JObj [])])
     = Ok (lit "{{a.b.c}}").
Proof.
  assert (R : forall rt template context res,
             stops_mid_walk rt context (placeholder_path res) ->
             getValueFromContext rt (trim (group 1 res)) context = Ok None
             /\ template_replacer rt template context res
                = Ok (matched template res)).
  { intros rt template context res H.
    assert (N : getValueFromContext rt (trim (group 1 res)) context
                = Ok None).
    { unfold getValueFromContext. apply descend_None_iff. now left. }
    split; [exact N|]. unfold template_replacer. now rewrite N. }
  assert (A : forall rt template context,
             (forall res,
                 In res (match_all TEMPLATE_PLACEHOLDER_REGEX template) ->
                 stops_mid_walk rt context (placeholder_path res)) ->
             processTemplate rt template context = Ok template).
  { intros rt template context H. unfold processTemplate.
    rewrite (replace_all_try_pure _ _ (matched template)).
    - f_equal. now apply replace_all_fn_same.
    - intros res Hin. now apply R, H. }
  split; [|split; [|split]].
  - intros rt template context res Hin Hstop.
    destruct (R rt template context res Hstop) as [N E].
    pose proof (placeholder_text template res Hin) as T.
    split; [exact T|]. split; [exact N|].
    rewrite <- T. split; [exact E|].
    unfold processTemplate.
    now apply replace_all_try_outcome with (res := res).
  - exact A.
  - intros rt H. apply A. intros res Hin.
    vm_compute in Hin. destruct Hin as [<-|[]].
    exists [lit "a"; lit "b"], [lit "c"], JUndefined.
    split; [reflexivity|]. split; [discriminate|].
    split; [|reflexivity].
    change (walk rt (JObj [(lit "a", JObj [])]) [lit "a"; lit "b"])
      with (bind (inherited rt (JObj []) (lit "b")) (fun v => Ok v)).
    now rewrite H.
  - vm_compute. reflexivity.
Qed.

(** The placeholder of ["{{a.b.c}}"] in the context [{a: {}}]: the walk
    reaches [undefined] at [b] and [c] remains. *)
Lemma C3_witness :
  let rt := Runtime.standard in
  let res := {| index := 0; mlen := 9; groups := [(1, lit "a.b.c")] |} in
  let context := JObj [(lit "a", JObj [])] in
  matched (lit "{{a.b.c}}") res = lit "{{" ++ group 1 res ++ lit "}}"
  /\ getValueFromContext rt (trim (group 1 res)) context = Ok None
  /\ template_replacer rt (lit "{{a.b.c}}") context res
     = Ok (lit "{{" ++ group 1 res ++ lit "}}")
  /\ match processTemplate rt (lit "{{a.b.c}}") context with
     | Ok out => occurs_in (lit "{{" ++ group 1 res ++ lit "}}") out
     | Throw e =>
         exists res',
           In res' (match_all TEMPLATE_PLACEHOLDER_REGEX (lit "{{a.b.c}}"))
           /\ template_replacer rt (lit "{{a.b.c}}") context res' = Throw e
     end.
Proof.
  intros rt res context.
  apply (proj1 C3_unresolved_placeholder_preserved rt
           (lit "{{a.b.c}}") context res).
  - vm_compute. left. reflexivity.
  - exists [lit "a"; lit "b"], [lit "c"], JUndefined.
    split; [reflexivity|]. split; [discriminate|]. split; reflexivity.
Defined.

End PlaceholderClaims.

(** ** Merging into an existing transpilePackages list *)

Section MergeClaims.
Import Imports NextjsFramework.

(** C6. The replacer turns a captured list ['x'] into
    ['x', <the four packages>], with a comma after the old entry; on a
    config file with [transpilePackages: ['x']] the updater writes that
    list, and a second run on the result stops at the guard and writes
    nothing, because the package names are in the content.  The same
    holds of every config file without the marker in which the
    transpilePackages pattern matches: the text of the match is replaced
    by what the replacer makes of it, the content written contains the
    marker, and the second run writes nothing. *)
Theorem C6_merge_into_existing_transpilePackages :
  (forall res,
      trim (group 1 res) = lit "'x'" ->
      transpile_replacer res
      = lit "transpilePackages: ['x', '@solana/wallet-adapter-base', '@solana/wallet-adapter-react', '@solana/wallet-adapter-react-ui', '@solana/wallet-adapter-wallets']")
  /\ (forall F res,
        includes MARKER F = false ->
        includes (lit "transpilePackages") F = true ->
        exec TRANSPILE_RE F = Some res ->
        add_transpile F
        = before_match F res ++ transpile_replacer res ++ after_match F res
        /\ includes MARKER (apply_patch updateNextConfig F) = true
        /\ written (updateNextConfig (apply_patch updateNextConfig F)) = None)
  /\ add_transpile (lit "module.exports = {
  transpilePackages: ['x'],
};
") = lit "module.exports = {
  transpilePackages: ['x', '@solana/wallet-adapter-base', '@solana/wallet-adapter-react', '@solana/wallet-adapter-react-ui', '@solana/wallet-adapter-wallets'],
};
"
  /\ includes
       (lit "transpilePackages: ['x', '@solana/wallet-adapter-base', '@solana/wallet-adapter-react', '@solana/wallet-adapter-react-ui', '@solana/wallet-adapter-wallets']")
       (apply_patch updateNextConfig (lit "module.exports = {
  transpilePackages: ['x'],
};
")) = true
  /\ updateNextConfig
       (apply_patch updateNextConfig (lit "module.exports = {
  transpilePackages: ['x'],
};
"))
     = no_write [(Debug, lit "Next.js config already has Solana setup")]
  /\ apply_patch updateNextConfig
       (apply_patch updateNextConfig (lit "module.exports = {
  transpilePackages: ['x'],
};
"))
     = apply_patch updateNextConfig (lit "module.exports = {
  transpilePackages: ['x'],
};
").
Proof.
  split; [|split].
  - intros res H. unfold transpile_replacer. rewrite H. reflexivity.
  - intros F res M T E.
    assert (A : add_transpile F
                = before_match F res ++ transpile_replacer res
                  ++ after_match F res).
    { unfold add_transpile, replace_fn. now rewrite T, E. }
    assert (P : includes PACKAGE_ENTRY (add_transpile F) = true).
    { destruct (add_transpile_cases F)
        as [H|(_ & [(_ & N)|[(N & _)|(N & _)]])]; congruence. }
    assert (G : includes MARKER (apply_patch updateNextConfig F) = true).
    { unfold apply_patch, updateNextConfig, file_after. rewrite M. cbn.
      now apply entry_has_marker, add_webpack_keeps_entry. }
    split; [exact A|]. split; [exact G|].
    unfold updateNextConfig at 1. now rewrite G.
  - vm_compute. repeat split.
Qed.

Lemma C6_witness :
  transpile_replacer {| index := 19; mlen := 24; groups := [(1, lit "'x'")] |}
  = lit "transpilePackages: ['x', '@solana/wallet-adapter-base', '@solana/wallet-adapter-react', '@solana/wallet-adapter-react-ui', '@solana/wallet-adapter-wallets']".
Proof.
  apply (proj1 C6_merge_into_existing_transpilePackages).
  reflexivity.
Defined.

End MergeClaims.

